(** * MPC.cpp: the optimisation problem of the model predictive controller

    A shallow embedding of [src/MPC.cpp]: the global constants and block
    offsets, the evaluator [FG_eval::operator()] and the driver [MPC::Solve].

    Modelling choices.
    - [size_t] is a 64-bit unsigned integer: a [Z] with every operation
      reduced modulo [2^64].  The loop counters are [int]s that stay far
      below [2^31]; they are plain [Z]s, converted to [size_t] where the
      source mixes them with a [size_t].
    - [double] and [AD<double>] are idealised as the real numbers [R]; the
      decimal literals of the source are the same decimal literals here.
    - A [CppAD::vector] or [Eigen::VectorXd] is a [list R], read and written
      by index.  A read outside the vector is undefined in C++: each
      library stops on an assertion when its checks are compiled in and
      reads the neighbouring memory otherwise.  The code therefore takes
      the outcome of such a read as a parameter, [oob] for the CppAD
      vectors and [oob_eigen] for the Eigen vectors.
    - [CppAD::ipopt::solve] is external: [MPC::Solve] is parametrised by it. *)

From Stdlib Require Import String.
From stdpp Require Import base option list list_numbers.
From Stdlib Require Import ZArith Reals Lra Lia.

#[local] Open Scope Z_scope.

(** ** Unsigned 64-bit arithmetic *)

Module SizeT.

Definition modulus : Z := 2 ^ 64.

Definition wrap (z : Z) : Z := z mod modulus.

(** Conversion of an [int] operand to [size_t]. *)
Definition of_int (i : Z) : Z := wrap i.

Definition add (a b : Z) : Z := wrap (a + b).
Definition sub (a b : Z) : Z := wrap (a - b).
Definition mul (a b : Z) : Z := wrap (a * b).

End SizeT.

Infix "+%" := SizeT.add (at level 50, left associativity).
Infix "-%" := SizeT.sub (at level 50, left associativity).
Infix "*%" := SizeT.mul (at level 40, left associativity).

(** ** Vectors *)

(** The outcome of a read outside a vector when nothing is assumed about it:
    the read does not return. *)
Definition checked : Z -> option R := fun _ => None.

(** [v[i]] as an rvalue. *)
Definition vread (oob : Z -> option R) (v : list R) (i : Z) : option R :=
  if (0 <=? i) && (i <? Z.of_nat (length v))
  then v !! Z.to_nat i
  else oob i.

(** [v[i] = a].  No write of the program leaves its vector; one that did
    would not return. *)
Definition vwrite (v : list R) (i : Z) (a : R) : option (list R) :=
  if (0 <=? i) && (i <? Z.of_nat (length v))
  then Some (<[Z.to_nat i := a]> v)
  else None.

(** ** Counted loops *)

Fixpoint for_each {S : Type} (ts : list Z) (body : Z -> S -> option S) (s : S)
  : option S :=
  match ts with
  | [] => Some s
  | t :: ts' => s' ← body t s; for_each ts' body s'
  end.

(** [for (int t = lo; t < hi; t++) body], for [0 <= lo] and a body that
    leaves [t] alone: the body runs for [t = lo, ..., hi - 1] in turn.  The
    comparison converts [t] to [size_t], which changes nothing for such [t]. *)
Definition for_range {S : Type} (lo hi : Z) (body : Z -> S -> option S) (s : S)
  : option S :=
  for_each (seqZ lo (hi - lo)) body s.

(** ** Global constants (MPC.cpp, lines 15-41) *)

Definition N : Z := 10.
Definition dt : R := 0.1.
Definition Lf : R := 2.67.
Definition ref_v : R := 120.

Definition x_start : Z := 0.
Definition y_start : Z := x_start +% N.
Definition psi_start : Z := y_start +% N.
Definition v_start : Z := psi_start +% N.
Definition cte_start : Z := v_start +% N.
Definition epsi_start : Z := cte_start +% N.
Definition delta_start : Z := epsi_start +% N.
Definition a_start : Z := delta_start +% N -% 1.

(** The six state blocks, in the order of the source. *)
Definition state_starts : list Z :=
  [x_start; y_start; psi_start; v_start; cte_start; epsi_start].

(** ** The evaluator: [FG_eval::operator()] (lines 50-97) *)

(** The weights declared at lines 56-62.  Nothing in the evaluator reads
    them. *)
Definition cte_cost_weight : Z := 2000.
Definition epsi_cost_weight : Z := 2000.
Definition v_cost_weight : Z := 1.
Definition delta_cost_weight : Z := 10.
Definition a_cost_weight : Z := 10.
Definition delta_change_cost_weight : Z := 100.
Definition a_change_cost_weight : Z := 10.

Section Evaluator.
#[local] Open Scope R_scope.

(** What a read outside a CppAD vector ([vars]) and outside an Eigen vector
    ([coeffs]) yields. *)
Variable oob : Z -> option R.
Variable oob_eigen : Z -> option R.
Variable coeffs : list R.

(** One iteration of the loop at line 65. *)
Definition FG_eval_body (vars : list R) (t : Z) (fg : list R)
  : option (list R) :=
  let t := SizeT.of_int t in
  x1 ← vread oob vars (x_start +% t);
  y1 ← vread oob vars (y_start +% t);
  psi1 ← vread oob vars (psi_start +% t);
  v1 ← vread oob vars (v_start +% t);
  cte1 ← vread oob vars (cte_start +% t);
  epsi1 ← vread oob vars (epsi_start +% t);
  x0 ← vread oob vars (x_start +% t -% 1);
  y0 ← vread oob vars (y_start +% t -% 1);
  psi0 ← vread oob vars (psi_start +% t -% 1);
  v0 ← vread oob vars (v_start +% t -% 1);
  cte0 ← vread oob vars (cte_start +% t -% 1);
  epsi0 ← vread oob vars (epsi_start +% t -% 1);
  delta0 ← vread oob vars (delta_start +% t -% 1);
  a0 ← vread oob vars (a_start +% t -% 1);
  c0 ← vread oob_eigen coeffs 0;
  c1 ← vread oob_eigen coeffs 1;
  c2 ← vread oob_eigen coeffs 2;
  c3 ← vread oob_eigen coeffs 3;
  let f0 := c0 + c1 * x0 + c2 * x0 ^ 2 + c3 * x0 ^ 3 in
  let psi_des0 := atan (c1 + 2 * c2 * x0 + 3 * c3 * x0 ^ 2) in
  fg ← vwrite fg (1 +% x_start +% t) (x1 - (x0 + v0 * cos psi0 * dt));
  fg ← vwrite fg (1 +% y_start +% t) (y1 - (y0 + v0 * sin psi0 * dt));
  fg ← vwrite fg (1 +% psi_start +% t)
         (psi1 - (psi0 - v0 * delta0 / Lf * dt));
  fg ← vwrite fg (1 +% v_start +% t) (v1 - (v0 + a0 * dt));
  fg ← vwrite fg (1 +% cte_start +% t)
         (cte1 - ((f0 - y0) + (v0 * sin epsi0 * dt)));
  vwrite fg (1 +% epsi_start +% t)
         (epsi1 - ((psi0 - psi_des0) - v0 * delta0 / Lf * dt)).

(** [operator()(fg, vars)].  [fg] is updated in place: it is an argument
    and the result. *)
Definition FG_eval (fg vars : list R) : option (list R) :=
  fg ← vwrite fg 0 0;
  for_range 0 N (FG_eval_body vars) fg.

End Evaluator.

(** ** The solver interface (CppAD's [ipopt::solve]) *)

Module Ipopt.

(** [solve_result<Dvector>::status_type]. *)
Inductive status_type : Set :=
| not_defined
| success
| maxiter_exceeded
| stop_at_tiny_step
| stop_at_acceptable_point
| local_infeasibility
| user_requested_stop
| feasible_point_found
| diverging_iterates
| restoration_failure
| error_in_step_computation
| invalid_number_detected
| too_few_degrees_of_freedom
| internal_error
| unknown.

#[global] Instance status_type_eq_dec : EqDecision status_type.
Proof. solve_decision. Defined.

(** The fields of [solve_result] that [MPC::Solve] reads. *)
Record solve_result : Type := {
  status : status_type;
  x : list R;
  obj_value : R
}.

(** The arguments of [solve], in the order of the call. *)
Record problem : Type := {
  options : string;
  xi : list R;
  xl : list R;
  xu : list R;
  gl : list R;
  gu : list R;
  fg_eval : list R -> list R -> option (list R)
}.

End Ipopt.

(** ** The driver: [MPC::Solve] (lines 106-214) *)

(** The locals [n_vars] and [n_constraints] (lines 118 and 121). *)
Definition n_vars : Z := N *% 6 +% (N -% 1) *% 2.
Definition n_constraints : Z := N *% 6.

Definition newline : string := String (Ascii.ascii_of_nat 10) EmptyString.

Section Solve.
#[local] Open Scope R_scope.

(** What a read outside a CppAD vector (the solver's [x], and [vars] in the
    evaluator) and outside an Eigen vector ([state], [coeffs]) yields. *)
Variable oob : Z -> option R.
Variable oob_eigen : Z -> option R.

(** What a [Dvector] holds when it is created: [uninit k i] is entry [i] of
    the [k]-th vector that [Solve] allocates. *)
Variable uninit : nat -> nat -> R.

Variable solve : Ipopt.problem -> Ipopt.solve_result.

Definition Dvector (k : nat) (n : Z) : list R :=
  uninit k <$> seq 0 (Z.to_nat n).

(** Lines 107-187: what [Solve] hands to the solver. *)
Definition Solve_problem (state coeffs : list R) : option Ipopt.problem :=
  x ← vread oob_eigen state 0;
  y ← vread oob_eigen state 1;
  psi ← vread oob_eigen state 2;
  v ← vread oob_eigen state 3;
  cte ← vread oob_eigen state 4;
  epsi ← vread oob_eigen state 5;
  vars ← for_range 0 n_vars
         (fun i vars => vwrite vars (SizeT.of_int i) 0)
         (Dvector 0 n_vars);
  '(vars_lowerbound, vars_upperbound) ←
    for_range 0 delta_start
      (fun i '(lo, up) =>
         lo ← vwrite lo (SizeT.of_int i) (-1.0e19);
         up ← vwrite up (SizeT.of_int i) 1.0e19;
         Some (lo, up))
      (Dvector 1 n_vars, Dvector 2 n_vars);
  '(vars_lowerbound, vars_upperbound) ←
    for_range delta_start a_start
      (fun i '(lo, up) =>
         lo ← vwrite lo (SizeT.of_int i) (-0.436332 * Lf);
         up ← vwrite up (SizeT.of_int i) (0.43632 * Lf);
         Some (lo, up))
      (vars_lowerbound, vars_upperbound);
  '(vars_lowerbound, vars_upperbound) ←
    for_range a_start n_vars
      (fun i '(lo, up) =>
         lo ← vwrite lo (SizeT.of_int i) (-1.0);
         up ← vwrite up (SizeT.of_int i) 1.0;
         Some (lo, up))
      (vars_lowerbound, vars_upperbound);
  '(constraints_lowerbound, constraints_upperbound) ←
    for_range 0 n_constraints
      (fun i '(lo, up) =>
         lo ← vwrite lo (SizeT.of_int i) 0;
         up ← vwrite up (SizeT.of_int i) 0;
         Some (lo, up))
      (Dvector 3 n_constraints, Dvector 4 n_constraints);
  constraints_lowerbound ← vwrite constraints_lowerbound x_start x;
  constraints_lowerbound ← vwrite constraints_lowerbound y_start y;
  constraints_lowerbound ← vwrite constraints_lowerbound psi_start psi;
  constraints_lowerbound ← vwrite constraints_lowerbound v_start v;
  constraints_lowerbound ← vwrite constraints_lowerbound cte_start cte;
  constraints_lowerbound ← vwrite constraints_lowerbound epsi_start epsi;
  constraints_upperbound ← vwrite constraints_upperbound x_start x;
  constraints_upperbound ← vwrite constraints_upperbound y_start y;
  constraints_upperbound ← vwrite constraints_upperbound psi_start psi;
  constraints_upperbound ← vwrite constraints_upperbound v_start v;
  constraints_upperbound ← vwrite constraints_upperbound cte_start cte;
  constraints_upperbound ← vwrite constraints_upperbound epsi_start epsi;
  let options :=
    ("Integer print_level  0" ++ newline
     ++ "Sparse  true        forward" ++ newline
     ++ "Sparse  true        reverse" ++ newline
     ++ "Numeric max_cpu_time          0.5" ++ newline)%string in
  Some {| Ipopt.options := options;
          Ipopt.xi := vars;
          Ipopt.xl := vars_lowerbound;
          Ipopt.xu := vars_upperbound;
          Ipopt.gl := constraints_lowerbound;
          Ipopt.gu := constraints_upperbound;
          Ipopt.fg_eval := FG_eval oob oob_eigen coeffs |}.

(** Lines 196-213: what [Solve] makes of the solver's answer. *)
Definition Solve_result (solution : Ipopt.solve_result) : option (list R) :=
  let ok := true in
  let ok := ok && bool_decide (Ipopt.status solution = Ipopt.success) in
  let cost := Ipopt.obj_value solution in
  let result := [] in
  delta ← vread oob (Ipopt.x solution) delta_start;
  let result := result ++ [delta] in
  a ← vread oob (Ipopt.x solution) a_start;
  let result := result ++ [a] in
  for_range 0 (N -% 2)
    (fun i result =>
       let i := SizeT.of_int i in
       px ← vread oob (Ipopt.x solution) (x_start +% i +% 1);
       py ← vread oob (Ipopt.x solution) (y_start +% i +% 1);
       Some ((result ++ [px]) ++ [py]))
    result.

Definition Solve (state coeffs : list R) : option (list R) :=
  problem ← Solve_problem state coeffs;
  Solve_result (solve problem).

End Solve.

(** ** Notions used to state the properties *)

(** The entry [i] of a vector, for stating what a read returned. *)
Definition entry (v : list R) (i : Z) : R := nth (Z.to_nat i) v 0%R.

(** Reads outside a vector when no check is compiled in: the read returns
    what the memory holds there. *)
Definition unchecked (mem : Z -> R) : Z -> option R := fun i => Some (mem i).

Record State : Type := {
  st_x : R; st_y : R; st_psi : R; st_v : R; st_cte : R; st_epsi : R
}.

Record Actuation : Type := { act_delta : R; act_a : R }.

Section Model.
#[local] Open Scope R_scope.

Variable coeffs : list R.

(** The reference polynomial [f] of degree 3 and its derivative. *)
Definition poly (x : R) : R :=
  entry coeffs 0 + entry coeffs 1 * x + entry coeffs 2 * x ^ 2
  + entry coeffs 3 * x ^ 3.

Definition poly' (x : R) : R :=
  entry coeffs 1 + 2 * entry coeffs 2 * x + 3 * entry coeffs 3 * x ^ 2.

(** The Kinematic Model as the specification writes it (section 4.1),
    to be compared with the residuals that the evaluator stores. *)
Definition kinematic_model (s : State) (u : Actuation) : State :=
  {| st_x := st_x s + st_v s * cos (st_psi s) * dt;
     st_y := st_y s + st_v s * sin (st_psi s) * dt;
     st_psi := st_psi s - st_v s * act_delta u / Lf * dt;
     st_v := st_v s + act_a u * dt;
     st_cte := (poly (st_x s) - st_y s) + st_v s * sin (st_epsi s) * dt;
     st_epsi := (st_psi s - atan (poly' (st_x s)))
                - st_v s * act_delta u / Lf * dt |}.

End Model.

(** The state and the actuation that a Decision Vector decides for step
    [t]. *)
Definition decided_state (vars : list R) (t : Z) : State :=
  {| st_x := entry vars (x_start + t);
     st_y := entry vars (y_start + t);
     st_psi := entry vars (psi_start + t);
     st_v := entry vars (v_start + t);
     st_cte := entry vars (cte_start + t);
     st_epsi := entry vars (epsi_start + t) |}.

Definition decided_actuation (vars : list R) (t : Z) : Actuation :=
  {| act_delta := entry vars (delta_start + t);
     act_a := entry vars (a_start + t) |}.

(** The slot of [fg] for step [t] of the block that starts at [s]. *)
Definition residual (fg : list R) (s t : Z) : option R :=
  fg !! Z.to_nat (1 + s + t).

(** [fg] holds, at step [t], the decided state minus the state that the
    model predicts from step [t - 1]. *)
Definition residuals_follow_model (coeffs vars fg : list R) (t : Z) : Prop :=
  let d := decided_state vars t in
  let p := kinematic_model coeffs (decided_state vars (t - 1))
                           (decided_actuation vars (t - 1)) in
  residual fg x_start t = Some (st_x d - st_x p)%R /\
  residual fg y_start t = Some (st_y d - st_y p)%R /\
  residual fg psi_start t = Some (st_psi d - st_psi p)%R /\
  residual fg v_start t = Some (st_v d - st_v p)%R /\
  residual fg cte_start t = Some (st_cte d - st_cte p)%R /\
  residual fg epsi_start t = Some (st_epsi d - st_epsi p)%R.

(** The slots of [fg] that iteration [t] of the evaluator writes. *)
Definition written (t : Z) (j : nat) : Prop :=
  exists s, s ∈ state_starts /\ j = Z.to_nat (1 + s + t).

(** The constraint bounds in closed form: zero everywhere, then the six
    assignments of lines 155-160 (and again 163-168). *)
Definition pinned (x y psi v cte epsi : R) : list R :=
  <[50%nat := epsi]> (<[40%nat := cte]> (<[30%nat := v]>
    (<[20%nat := psi]> (<[10%nat := y]> (<[0%nat := x]>
      (replicate 60 0%R)))))).

(** The predicted position at step [t] in a solution vector, as the two
    values that [Solve] appends to its result. *)
Definition position (sol : list R) (t : Z) : list R :=
  [entry sol (x_start + t); entry sol (y_start + t)].

(** [lo <= v <= up], entry by entry. *)
Definition between (lo v up : list R) : Prop :=
  Forall2 Rle lo v /\ Forall2 Rle v up.

(** The feasible set of a problem, as the solver's contract defines it: the
    point lies within the variable bounds and the residuals that the
    evaluator stores behind the cost slot lie within the constraint bounds.
    The solver hands the evaluator a vector of [1 + n_constraints] entries
    to fill. *)
Definition feasible (p : Ipopt.problem) (vars : list R) : Prop :=
  between (Ipopt.xl p) vars (Ipopt.xu p) /\
  exists fg,
    Ipopt.fg_eval p (replicate (Z.to_nat (1 + n_constraints)) 0%R) vars
      = Some fg
    /\ between (Ipopt.gl p) (tail fg) (Ipopt.gu p).

Section SpecCost.
#[local] Open Scope R_scope.

(** [f lo + f (lo + 1) + ... + f (lo + n - 1)]. *)
Definition sumR (f : Z -> R) (lo n : Z) : R :=
  foldr Rplus 0 (f <$> seqZ lo n).

(** The cost as the specification describes it (section 4.2), with the
    weights that the source declares: for comparison with the cost slot of
    the evaluator. *)
Definition spec_cost (vars : list R) : R :=
  sumR (fun t =>
          IZR cte_cost_weight * entry vars (cte_start + t) ^ 2
          + IZR epsi_cost_weight * entry vars (epsi_start + t) ^ 2
          + IZR v_cost_weight * (entry vars (v_start + t) - ref_v) ^ 2)
       0 N
  + sumR (fun t =>
            IZR delta_cost_weight * entry vars (delta_start + t) ^ 2
            + IZR a_cost_weight * entry vars (a_start + t) ^ 2)
         0 (N - 1)
  + sumR (fun t =>
            IZR delta_change_cost_weight
            * (entry vars (delta_start + t + 1)
               - entry vars (delta_start + t)) ^ 2
            + IZR a_change_cost_weight
              * (entry vars (a_start + t + 1)
                 - entry vars (a_start + t)) ^ 2)
         0 (N - 2).

End SpecCost.

(** Two runs that may stop: both stop, or both return and the results are
    related. *)
Definition opt_rel {A : Type} (P : A -> A -> Prop) (a b : option A) : Prop :=
  match a, b with
  | Some u, Some w => P u w
  | None, None => True
  | _, _ => False
  end.

(** What iteration 0 of the evaluator takes for the state at the previous
    step: [m], the value that the read of [vars[2^64 - 1]] returned, and
    the entry one place before each of the other five blocks. *)
Definition first_previous_state (m : R) (vars : list R) : State :=
  {| st_x := m;
     st_y := entry vars (y_start - 1);
     st_psi := entry vars (psi_start - 1);
     st_v := entry vars (v_start - 1);
     st_cte := entry vars (cte_start - 1);
     st_epsi := entry vars (epsi_start - 1) |}.

(** The six slots of step 0 hold the decided state at step 0 minus the
    model's prediction from [first_previous_state] and the entries one place
    before the two actuation blocks. *)
Definition first_residuals (m : R) (coeffs vars fg : list R) : Prop :=
  let d := decided_state vars 0 in
  let p := kinematic_model coeffs (first_previous_state m vars)
                           (decided_actuation vars (-1)) in
  residual fg x_start 0 = Some (st_x d - st_x p)%R /\
  residual fg y_start 0 = Some (st_y d - st_y p)%R /\
  residual fg psi_start 0 = Some (st_psi d - st_psi p)%R /\
  residual fg v_start 0 = Some (st_v d - st_v p)%R /\
  residual fg cte_start 0 = Some (st_cte d - st_cte p)%R /\
  residual fg epsi_start 0 = Some (st_epsi d - st_epsi p)%R.

(** Two vectors for [fg] agree on the cost slot and on the slots that the
    iterations before [t] have written: slot [j >= 1] is written by
    iteration [(j - 1) mod N]. *)
Definition agree_upto (t : Z) (a b : list R) : Prop :=
  length a = Z.to_nat (1 + n_constraints)
  /\ length b = Z.to_nat (1 + n_constraints)
  /\ forall j : nat,
       j = 0%nat \/ (1 <= Z.of_nat j <= n_constraints
                     /\ (Z.of_nat j - 1) mod N < t) ->
       a !! j = b !! j.

(** * Properties *)

(** ** Counted loops *)

Section Loops.
Context {S : Type}.
Implicit Types (body : Z -> S -> option S) (I : Z -> S -> Prop).

Lemma for_each_seqZ_invariant I body (n : nat) : forall (lo : Z) (s : S),
  I lo s ->
  (forall t s, lo <= t < lo + Z.of_nat n -> I t s ->
               exists s', body t s = Some s' /\ I (t + 1) s') ->
  exists s', for_each (seqZ lo (Z.of_nat n)) body s = Some s'
             /\ I (lo + Z.of_nat n) s'.
Proof.
  induction n as [|n IH]; intros lo s Hs Hbody.
  - exists s. rewrite seqZ_nil by lia. split; [reflexivity|].
    now replace (lo + Z.of_nat 0) with lo by lia.
  - rewrite seqZ_cons by lia. cbn [for_each].
    destruct (Hbody lo s) as (s1 & -> & Hs1); [lia|assumption|].
    cbn [mbind option_bind].
    replace (Z.pred (Z.of_nat (Datatypes.S n))) with (Z.of_nat n) by lia.
    destruct (IH (Z.succ lo) s1) as (s2 & Hrun & Hs2).
    + now replace (Z.succ lo) with (lo + 1) by lia.
    + intros t s' Ht. apply Hbody. lia.
    + exists s2. split; [assumption|].
      now replace (lo + Z.of_nat (Datatypes.S n))
        with (Z.succ lo + Z.of_nat n) by lia.
Qed.

(** The usual rule of a counted loop: an invariant that holds on entry
    and is kept by every iteration holds on exit, and the loop returns. *)
Lemma for_range_invariant I lo hi body (s : S) :
  lo <= hi ->
  I lo s ->
  (forall t s, lo <= t < hi -> I t s ->
               exists s', body t s = Some s' /\ I (t + 1) s') ->
  exists s', for_range lo hi body s = Some s' /\ I hi s'.
Proof.
  intros Hle Hs Hbody. unfold for_range.
  destruct (for_each_seqZ_invariant I body (Z.to_nat (hi - lo)) lo s Hs)
    as (s' & Hrun & Hs').
  - intros t s' Ht. apply Hbody. lia.
  - exists s'. revert Hrun Hs'.
    replace (Z.of_nat (Z.to_nat (hi - lo))) with (hi - lo) by lia.
    replace (lo + (hi - lo)) with hi by lia. auto.
Qed.

End Loops.

(** ** Offsets and indices *)

(** The offsets, computed. *)
Lemma starts_eq :
  x_start = 0 /\ y_start = 10 /\ psi_start = 20 /\ v_start = 30 /\
  cte_start = 40 /\ epsi_start = 50 /\ delta_start = 60 /\ a_start = 69.
Proof. repeat split; reflexivity. Qed.

Ltac starts :=
  change x_start with 0 in *; change y_start with 10 in *;
  change psi_start with 20 in *; change v_start with 30 in *;
  change cte_start with 40 in *; change epsi_start with 50 in *;
  change delta_start with 60 in *; change a_start with 69 in *;
  change n_vars with 78 in *; change n_constraints with 60 in *;
  change N with 10 in *.

Ltac unwrap :=
  unfold SizeT.add, SizeT.sub, SizeT.mul, SizeT.of_int, SizeT.wrap;
  change SizeT.modulus with 18446744073709551616;
  repeat match goal with
         | |- context [?a mod 18446744073709551616] =>
             rewrite (Z.mod_small a 18446744073709551616) by lia
         end.

(** The index of the entry of step [t] in the block at [s]. *)
Lemma idx_cur (s t : Z) :
  0 <= s <= 69 -> 0 <= t < N -> s +% SizeT.of_int t = s + t.
Proof. starts. intros. now unwrap. Qed.

(** The index of the entry of step [t - 1], when there is one. *)
Lemma idx_prev (s t : Z) :
  0 <= s <= 69 -> 0 <= t < N -> 1 <= s + t ->
  s +% SizeT.of_int t -% 1 = s + (t - 1).
Proof. starts. intros. unwrap. lia. Qed.

(** The slot of [fg] that holds the residual of step [t] of the block at
    [s]. *)
Lemma idx_res (s t : Z) :
  0 <= s <= 69 -> 0 <= t < N -> 1 +% s +% SizeT.of_int t = 1 + s + t.
Proof. starts. intros. now unwrap. Qed.

(** ** Reads and writes *)

Lemma vread_inside oob (v : list R) (i : Z) :
  0 <= i < Z.of_nat (length v) -> vread oob v i = Some (entry v i).
Proof.
  intros Hi. unfold vread, entry.
  replace ((0 <=? i) && (i <? Z.of_nat (length v))) with true
    by (symmetry; apply andb_true_iff; lia).
  destruct (lookup_lt_is_Some_2 v (Z.to_nat i)) as [a Ha]; [lia|].
  rewrite Ha. f_equal. symmetry. now apply nth_lookup_Some.
Qed.

Lemma vread_outside oob (v : list R) (i : Z) :
  Z.of_nat (length v) <= i -> vread oob v i = oob i.
Proof.
  intros Hi. unfold vread.
  replace (i <? Z.of_nat (length v)) with false by (symmetry; lia).
  now rewrite andb_false_r.
Qed.

Lemma vwrite_inside (v : list R) (i : Z) (a : R) :
  0 <= i < Z.of_nat (length v) ->
  vwrite v i a = Some (<[Z.to_nat i := a]> v).
Proof.
  intros Hi. unfold vwrite.
  now replace ((0 <=? i) && (i <? Z.of_nat (length v))) with true
    by (symmetry; apply andb_true_iff; lia).
Qed.

(** ** The evaluator, one iteration *)

Section Body.
#[local] Open Scope R_scope.

Variable oob : Z -> option R.
Variable oob_eigen : Z -> option R.
Variables c0 c1 c2 c3 : R.
Variable vars : list R.
Hypothesis vars_len : length vars = Z.to_nat n_vars.

Let coeffs : list R := [c0; c1; c2; c3].

(** An iteration returns as soon as its reads do: every read of an
    iteration [t >= 1] lies inside [vars], and iteration 0 reads
    [vars[2^64 - 1]].  It writes six slots of [fg], and from [t = 1] on
    these hold the residuals of the model. *)
Lemma FG_eval_body_returns (t : Z) (fg : list R) :
  (0 <= t < N)%Z -> length fg = Z.to_nat (1 + n_constraints) ->
  (1 <= t)%Z \/ is_Some (oob (SizeT.modulus - 1)) ->
  exists fg',
    FG_eval_body oob oob_eigen coeffs vars t fg = Some fg'
    /\ length fg' = length fg
    /\ (forall j, ~ written t j -> fg' !! j = fg !! j)
    /\ ((1 <= t)%Z -> residuals_follow_model coeffs vars fg' t).
Proof.
  intros Ht Hfg Hoob. unfold FG_eval_body. cbv zeta.
  rewrite !idx_res by (starts; lia).
  assert (Hprev : exists m,
    vread oob vars (x_start +% SizeT.of_int t -% 1) = Some m
    /\ ((1 <= t)%Z -> m = entry vars (x_start + (t - 1)))).
  { destruct (Z.eq_dec t 0) as [->|Hne].
    - destruct Hoob as [Hpos|[m Hm]]; [lia|].
      change (x_start +% SizeT.of_int 0 -% 1) with (SizeT.modulus - 1)%Z.
      rewrite vread_outside by (rewrite vars_len; now vm_compute).
      exists m. split; [exact Hm|lia].
    - rewrite idx_prev by (starts; lia).
      rewrite vread_inside by (rewrite vars_len; starts; lia).
      eexists. split; [reflexivity|reflexivity]. }
  destruct Hprev as (m & -> & Hm).
  rewrite !idx_prev by (starts; lia).
  rewrite !idx_cur by (starts; lia).
  rewrite !(vread_inside _ vars) by (rewrite vars_len; starts; lia).
  cbn [mbind option_bind].
  change (vread oob_eigen coeffs 0) with (Some c0).
  change (vread oob_eigen coeffs 1) with (Some c1).
  change (vread oob_eigen coeffs 2) with (Some c2).
  change (vread oob_eigen coeffs 3) with (Some c3).
  cbn [mbind option_bind].
  repeat (rewrite vwrite_inside
            by (rewrite ?length_insert, Hfg; starts; lia);
          cbn [mbind option_bind]).
  eexists. split; [reflexivity|]. split; [|split].
  - now rewrite !length_insert.
  - intros j Hj.
    rewrite !list_lookup_insert_ne; [reflexivity|..];
      intros <-; apply Hj; eexists; (split; [|reflexivity]);
      unfold state_starts; rewrite !elem_of_cons; tauto.
  - intros Ht1. rewrite (Hm Ht1).
    unfold residuals_follow_model, residual.
    repeat split.
    all: rewrite ?list_lookup_insert_ne by (starts; lia).
    all: rewrite list_lookup_insert_eq
           by (rewrite ?length_insert, Hfg; starts; lia).
    all: reflexivity.
Qed.

End Body.

(** ** The evaluator, the whole loop *)

Lemma written_other_step (s t t' : Z) :
  s ∈ state_starts -> (0 <= t < N) -> (0 <= t' < N) -> t' <> t ->
  ~ written t (Z.to_nat (1 + s + t')).
Proof.
  intros Hs Ht Ht' Hne (s0 & Hs0 & Heq).
  unfold state_starts in Hs, Hs0. starts.
  rewrite !elem_of_cons, elem_of_nil in Hs, Hs0. lia.
Qed.

Lemma written_not_cost (t : Z) : 0 <= t < N -> ~ written t 0.
Proof.
  intros Ht (s & Hs & Heq). unfold state_starts in Hs. starts.
  rewrite !elem_of_cons, elem_of_nil in Hs. lia.
Qed.

Lemma residuals_frame (coeffs vars fg fg' : list R) (t t' : Z) :
  0 <= t < N -> 0 <= t' < N -> t' <> t ->
  (forall j, ~ written t j -> fg' !! j = fg !! j) ->
  residuals_follow_model coeffs vars fg t' ->
  residuals_follow_model coeffs vars fg' t'.
Proof.
  intros Ht Ht' Hne Hframe. unfold residuals_follow_model, residual.
  rewrite !Hframe; [tauto|..]; apply written_other_step; try assumption;
    unfold state_starts; rewrite !elem_of_cons; tauto.
Qed.

Section Whole.
Variable oob : Z -> option R.
Variable oob_eigen : Z -> option R.
Hypothesis oob_returns : is_Some (oob (SizeT.modulus - 1)).
Variables c0 c1 c2 c3 : R.
Variables fg vars : list R.
Hypothesis vars_len : length vars = Z.to_nat n_vars.
Hypothesis fg_len : length fg = Z.to_nat (1 + n_constraints).

(** When the read of [vars[2^64 - 1]] returns, the evaluator returns: the
    cost slot holds the constant of line 53 and the slots of the steps
    [1 .. N - 1] hold the residuals of the model. *)
Lemma FG_eval_returns :
  exists fg',
    FG_eval oob oob_eigen [c0; c1; c2; c3] fg vars = Some fg'
    /\ length fg' = length fg
    /\ fg' !! 0%nat = Some 0%R
    /\ forall t, 1 <= t < N ->
         residuals_follow_model [c0; c1; c2; c3] vars fg' t.
Proof.
  unfold FG_eval.
  rewrite vwrite_inside by (rewrite fg_len; starts; lia).
  cbn [mbind option_bind].
  destruct (for_range_invariant
    (fun t g => length g = length fg /\ g !! 0%nat = Some 0%R /\
                forall t', 1 <= t' < t ->
                  residuals_follow_model [c0; c1; c2; c3] vars g t')
    0 N (FG_eval_body oob oob_eigen [c0; c1; c2; c3] vars)
    (<[Z.to_nat 0 := 0%R]> fg)) as (fg' & Hrun & Hlen & Hcost & Hres).
  - starts. lia.
  - split; [apply length_insert|]. split; [|intros; lia].
    apply list_lookup_insert_eq. rewrite fg_len. starts. lia.
  - intros t g Ht (Hlen & Hcost & Hres).
    destruct (FG_eval_body_returns oob oob_eigen c0 c1 c2 c3 vars vars_len t g Ht)
      as (g' & Hbody & Hlen' & Hframe & Hnew); [congruence|now right|].
    exists g'. split; [assumption|]. split; [congruence|]. split.
    + rewrite Hframe; [assumption|]. now apply written_not_cost.
    + intros t' Ht'. destruct (Z.eq_dec t' t) as [->|Hne].
      * apply Hnew. lia.
      * apply (residuals_frame _ _ g g' t t'); try assumption; try lia.
        apply Hres. lia.
  - exists fg'. auto.
Qed.

End Whole.

(** ** The evaluator, iteration 0 *)

Section FirstStep.
#[local] Open Scope R_scope.

Variable oob : Z -> option R.
Variable oob_eigen : Z -> option R.
Variable m : R.
Hypothesis oob_m : oob (SizeT.modulus - 1) = Some m.
Variables c0 c1 c2 c3 : R.
Variable vars : list R.
Hypothesis vars_len : length vars = Z.to_nat n_vars.

Lemma FG_eval_body_first (fg : list R) :
  length fg = Z.to_nat (1 + n_constraints) ->
  exists fg',
    FG_eval_body oob oob_eigen [c0; c1; c2; c3] vars 0 fg = Some fg'
    /\ first_residuals m [c0; c1; c2; c3] vars fg'.
Proof.
  intros Hfg. unfold FG_eval_body. cbv zeta.
  rewrite !idx_res by (starts; lia).
  change (x_start +% SizeT.of_int 0 -% 1) with (SizeT.modulus - 1)%Z.
  rewrite (vread_outside oob vars (SizeT.modulus - 1))
    by (rewrite vars_len; now vm_compute).
  rewrite oob_m.
  rewrite !idx_prev by (starts; lia).
  rewrite !idx_cur by (starts; lia).
  rewrite !(vread_inside _ vars) by (rewrite vars_len; starts; lia).
  cbn [mbind option_bind].
  change (vread oob_eigen [c0; c1; c2; c3] 0) with (Some c0).
  change (vread oob_eigen [c0; c1; c2; c3] 1) with (Some c1).
  change (vread oob_eigen [c0; c1; c2; c3] 2) with (Some c2).
  change (vread oob_eigen [c0; c1; c2; c3] 3) with (Some c3).
  cbn [mbind option_bind].
  repeat (rewrite vwrite_inside
            by (rewrite ?length_insert, Hfg; starts; lia);
          cbn [mbind option_bind]).
  eexists. split; [reflexivity|].
  unfold first_residuals, residual.
  repeat split.
  all: rewrite ?list_lookup_insert_ne by (starts; lia).
  all: rewrite list_lookup_insert_eq
         by (rewrite ?length_insert, Hfg; starts; lia).
  all: reflexivity.
Qed.

Lemma first_residuals_frame (fg fg' : list R) (t : Z) :
  (1 <= t < N)%Z ->
  (forall j, ~ written t j -> fg' !! j = fg !! j) ->
  first_residuals m [c0; c1; c2; c3] vars fg ->
  first_residuals m [c0; c1; c2; c3] vars fg'.
Proof.
  intros Ht Hframe. unfold first_residuals, residual.
  rewrite !Hframe; [tauto|..]; apply written_other_step;
    try (starts; lia);
    unfold state_starts; rewrite !elem_of_cons; tauto.
Qed.

End FirstStep.

(** The slots of step 0 keep what iteration 0 stored: no later iteration
    writes them. *)
Lemma FG_eval_first_step
    (oob oob_eigen : Z -> option R) (m : R) (c0 c1 c2 c3 : R)
    (fg vars : list R) :
  length vars = Z.to_nat n_vars ->
  length fg = Z.to_nat (1 + n_constraints) ->
  oob (SizeT.modulus - 1) = Some m ->
  exists fg',
    FG_eval oob oob_eigen [c0; c1; c2; c3] fg vars = Some fg'
    /\ first_residuals m [c0; c1; c2; c3] vars fg'.
Proof.
  intros Hvars Hfg Hoob. unfold FG_eval.
  rewrite vwrite_inside by (rewrite Hfg; starts; lia).
  cbn [mbind option_bind].
  destruct (for_range_invariant
    (fun t g => length g = length fg /\
                (1 <= t -> first_residuals m [c0; c1; c2; c3] vars g))
    0 N (FG_eval_body oob oob_eigen [c0; c1; c2; c3] vars)
    (<[Z.to_nat 0 := 0%R]> fg)) as (fg' & Hrun & _ & Hfirst).
  - starts. lia.
  - split; [apply length_insert|lia].
  - intros t g Ht (Hlen & Hres).
    destruct (FG_eval_body_returns oob oob_eigen c0 c1 c2 c3 vars Hvars t g Ht)
      as (g' & Hbody & Hlen' & Hframe & _);
      [congruence|right; rewrite Hoob; now eexists|].
    exists g'. split; [assumption|]. split; [congruence|]. intros _.
    destruct (Z.eq_dec t 0) as [->|Hne].
    + destruct (FG_eval_body_first oob oob_eigen m Hoob c0 c1 c2 c3 vars Hvars g)
        as (g0 & Hbody0 & Hres0); [congruence|].
      congruence.
    + apply first_residuals_frame with (fg := g) (t := t);
        try assumption; try lia. apply Hres. lia.
  - exists fg'. split; [exact Hrun|]. apply Hfirst. starts. lia.
Qed.

(** With the index check compiled in, the first iteration stops at the
    read of [vars[x_start + t - 1]], and the evaluator with it. *)
Lemma FG_eval_body_checked_stops
    (oob_eigen : Z -> option R) (coeffs fg vars : list R) :
  length vars = Z.to_nat n_vars -> FG_eval_body checked oob_eigen coeffs vars 0 fg = None.
Proof.
  intros Hlen. unfold FG_eval_body. cbv zeta.
  change (x_start +% SizeT.of_int 0 -% 1) with 18446744073709551615.
  rewrite (vread_outside checked vars 18446744073709551615)
    by (rewrite Hlen; starts; lia).
  change (checked 18446744073709551615) with (@None R).
  repeat match goal with
         | |- (vread checked vars ?i ≫= _) = None =>
             destruct (vread checked vars i); cbn [mbind option_bind]
         end; reflexivity.
Qed.

Lemma FG_eval_checked_stops
    (oob_eigen : Z -> option R) (coeffs fg vars : list R) :
  length vars = Z.to_nat n_vars -> FG_eval checked oob_eigen coeffs fg vars = None.
Proof.
  intros Hlen. unfold FG_eval.
  destruct (vwrite fg 0 0) as [fg0|]; [|reflexivity].
  cbn [mbind option_bind]. unfold for_range.
  rewrite seqZ_cons by (starts; lia). cbn [for_each].
  now rewrite FG_eval_body_checked_stops.
Qed.

(** ** The problem that [Solve] assembles *)

Section Assembled.
#[local] Open Scope R_scope.

Variable oob : Z -> option R.
Variable oob_eigen : Z -> option R.
Variable uninit : nat -> nat -> R.
Variables x y psi v cte epsi : R.
Variable coeffs : list R.

Let state : list R := [x; y; psi; v; cte; epsi].

Lemma Solve_problem_eq :
  Solve_problem oob oob_eigen uninit state coeffs =
  Some {| Ipopt.options :=
            ("Integer print_level  0" ++ newline
             ++ "Sparse  true        forward" ++ newline
             ++ "Sparse  true        reverse" ++ newline
             ++ "Numeric max_cpu_time          0.5" ++ newline)%string;
          Ipopt.xi := replicate 78 0;
          Ipopt.xl := replicate 60 (-1.0e19)
                      ++ replicate 9 (-0.436332 * Lf)
                      ++ replicate 9 (-1.0);
          Ipopt.xu := replicate 60 1.0e19
                      ++ replicate 9 (0.43632 * Lf)
                      ++ replicate 9 1.0;
          Ipopt.gl := pinned x y psi v cte epsi;
          Ipopt.gu := pinned x y psi v cte epsi;
          Ipopt.fg_eval := FG_eval oob oob_eigen coeffs |}.
Proof.
  cbv -[Rplus Rmult Ropp Rminus Rdiv Rinv IZR Lf dt FG_eval].
  reflexivity.
Qed.

End Assembled.

(** ** What [Solve] returns *)

Lemma idx_next (s i : Z) :
  0 <= s <= 69 -> 0 <= i < N -> s +% SizeT.of_int i +% 1 = s + (i + 1).
Proof. starts. intros. unwrap. lia. Qed.

Section Returned.
Variable oob : Z -> option R.
Variable solution : Ipopt.solve_result.
Hypothesis x_len : length (Ipopt.x solution) = Z.to_nat n_vars.

Let sol : list R := Ipopt.x solution.

(** The result is read off the solution vector alone: the two first
    actuations, then the positions of the steps [1 .. N - 2]. *)
Lemma Solve_result_eq :
  Solve_result oob solution =
  Some (entry sol delta_start :: entry sol a_start
        :: flat_map (position sol) (seqZ 1 (N - 2))).
Proof.
  unfold Solve_result. cbv zeta. fold sol.
  rewrite !(vread_inside _ sol) by (unfold sol; rewrite x_len; starts; lia).
  cbn [mbind option_bind app].
  destruct (for_range_invariant
    (fun i r => r = entry sol delta_start :: entry sol a_start
                    :: flat_map (position sol) (seqZ 1 i))
    0 (N -% 2)
    (fun i result =>
       let i := SizeT.of_int i in
       px ← vread oob sol (x_start +% i +% 1);
       py ← vread oob sol (y_start +% i +% 1);
       Some ((result ++ [px]) ++ [py]))
    [entry sol delta_start; entry sol a_start]) as (r & Hrun & Hr).
  - vm_compute. discriminate.
  - reflexivity.
  - change (N -% 2) with 8. intros i r Hi ->. cbv zeta.
    rewrite !idx_next by (starts; lia).
    do 2 rewrite (vread_inside _ sol)
      by (unfold sol; rewrite x_len; starts; lia).
    cbn [mbind option_bind]. eexists. split; [reflexivity|].
    rewrite seqZ_app by lia. rewrite flat_map_app.
    rewrite (seqZ_cons (1 + i)) by lia.
    rewrite (seqZ_nil (Z.succ (1 + i))) by lia.
    cbn [flat_map position app]. rewrite <- !app_assoc.
    replace (1 + i) with (i + 1) by lia. reflexivity.
  - subst r. exact Hrun.
Qed.

End Returned.

Section ReturnedLong.
Variable oob : Z -> option R.
Variable solution : Ipopt.solve_result.
Hypothesis x_long : a_start < Z.of_nat (length (Ipopt.x solution)).

Let sol : list R := Ipopt.x solution.

(** [a_start] is the largest index that [Solve] reads in the solver's
    vector. *)
Lemma Solve_result_long :
  Solve_result oob solution =
  Some (entry sol delta_start :: entry sol a_start
        :: flat_map (position sol) (seqZ 1 (N - 2))).
Proof.
  unfold Solve_result. cbv zeta. fold sol.
  rewrite !(vread_inside _ sol) by (unfold sol; starts; lia).
  cbn [mbind option_bind app].
  destruct (for_range_invariant
    (fun i r => r = entry sol delta_start :: entry sol a_start
                    :: flat_map (position sol) (seqZ 1 i))
    0 (N -% 2)
    (fun i result =>
       let i := SizeT.of_int i in
       px ← vread oob sol (x_start +% i +% 1);
       py ← vread oob sol (y_start +% i +% 1);
       Some ((result ++ [px]) ++ [py]))
    [entry sol delta_start; entry sol a_start]) as (r & Hrun & Hr).
  - vm_compute. discriminate.
  - reflexivity.
  - change (N -% 2) with 8. intros i r Hi ->. cbv zeta.
    rewrite !idx_next by (starts; lia).
    do 2 rewrite (vread_inside _ sol) by (unfold sol; starts; lia).
    cbn [mbind option_bind]. eexists. split; [reflexivity|].
    rewrite seqZ_app by lia. rewrite flat_map_app.
    rewrite (seqZ_cons (1 + i)) by lia.
    rewrite (seqZ_nil (Z.succ (1 + i))) by lia.
    cbn [flat_map position app]. rewrite <- !app_assoc.
    replace (1 + i) with (i + 1) by lia. reflexivity.
  - subst r. exact Hrun.
Qed.

End ReturnedLong.

(** ** Entries of the assembled bounds *)

Lemma entry_three_blocks (a b c : R) (i : Z) :
  0 <= i < 78 ->
  entry (replicate 60 a ++ replicate 9 b ++ replicate 9 c) i =
  if i <? 60 then a else if i <? 69 then b else c.
Proof.
  intros Hi. unfold entry. rewrite nth_lookup.
  destruct (Z.ltb_spec i 60) as [H60|H60].
  - rewrite lookup_app_l by (rewrite length_replicate; lia).
    rewrite lookup_replicate_2 by lia. reflexivity.
  - rewrite lookup_app_r by (rewrite length_replicate; lia).
    rewrite length_replicate.
    destruct (Z.ltb_spec i 69) as [H69|H69].
    + rewrite lookup_app_l by (rewrite length_replicate; lia).
      rewrite lookup_replicate_2 by lia. reflexivity.
    + rewrite lookup_app_r by (rewrite length_replicate; lia).
      rewrite length_replicate.
      rewrite lookup_replicate_2 by lia. reflexivity.
Qed.

Lemma length_three_blocks (a b c : R) :
  length (replicate 60 a ++ replicate 9 b ++ replicate 9 c) = 78%nat.
Proof. rewrite !length_app, !length_replicate. reflexivity. Qed.

Lemma length_pinned (x y psi v cte epsi : R) :
  length (pinned x y psi v cte epsi) = 60%nat.
Proof. unfold pinned. rewrite !length_insert. apply length_replicate. Qed.

Lemma entry_pinned_other (x y psi v cte epsi : R) (i : Z) :
  0 <= i < 60 -> i ∉ state_starts -> entry (pinned x y psi v cte epsi) i = 0%R.
Proof.
  intros Hi Hnot. unfold state_starts in Hnot. starts.
  rewrite !not_elem_of_cons in Hnot.
  unfold entry, pinned. rewrite nth_lookup.
  rewrite !list_lookup_insert_ne by lia.
  rewrite lookup_replicate_2 by lia. reflexivity.
Qed.

Lemma entry_pinned_start (x y psi v cte epsi : R) (k : nat) (s : Z) :
  state_starts !! k = Some s ->
  Some (entry (pinned x y psi v cte epsi) s) = [x; y; psi; v; cte; epsi] !! k.
Proof.
  intros Hk. do 6 (destruct k as [|k]; [injection Hk as <-; reflexivity|]).
  discriminate.
Qed.

(** * The claims *)

(** ** Layout (C8) *)

(** The layout and the vectors that [Solve] assembles on it. *)
Lemma layout_of_assembled_problem
    (oob oob_eigen : Z -> option R) (uninit : nat -> nat -> R)
    (x y psi v cte epsi : R) (coeffs : list R) :
  n_vars = N * 6 + (N - 1) * 2
  /\ n_constraints = N * 6
  /\ state_starts = [0; N; 2 * N; 3 * N; 4 * N; 5 * N]
  /\ delta_start = 6 * N
  /\ a_start = delta_start + (N - 1)
  /\ a_start + (N - 1) = n_vars
  /\ exists p,
       Solve_problem oob oob_eigen uninit [x; y; psi; v; cte; epsi] coeffs
       = Some p
       /\ Z.of_nat (length (Ipopt.xi p)) = n_vars
       /\ Z.of_nat (length (Ipopt.xl p)) = n_vars
       /\ Z.of_nat (length (Ipopt.xu p)) = n_vars
       /\ Z.of_nat (length (Ipopt.gl p)) = n_constraints
       /\ Z.of_nat (length (Ipopt.gu p)) = n_constraints
       /\ forall i, 0 <= i < n_vars ->
            entry (Ipopt.xl p) i =
              (if i <? delta_start then (-1.0e19)%R
               else if i <? a_start then (-0.436332 * Lf)%R
               else (-1.0)%R).
Proof.
  do 6 (split; [reflexivity|]).
  eexists. split; [apply Solve_problem_eq|]. cbn [Ipopt.xi Ipopt.xl Ipopt.xu
    Ipopt.gl Ipopt.gu].
  rewrite length_replicate, !length_three_blocks, !length_pinned.
  do 5 (split; [reflexivity|]).
  intros i Hi. starts. now apply entry_three_blocks.
Qed.

(** C8.  The Decision Vector has [N * 6 + (N - 1) * 2] entries in six state
    blocks of [N] entries from offset 0 and two actuation blocks of [N - 1]
    entries, there are [N * 6] constraints, and the vectors that [Solve]
    assembles follow this layout.  The evaluator follows it in every write
    and in the reads of the iterations 1 to [N - 1]: iteration [t] changes
    the six slots [1 + block_start + t] only and fills them from the
    entries of the steps [t] and [t - 1] of the blocks, and the evaluator
    returns a vector of [1 + N * 6] entries.  In iteration 0 it leaves the
    layout: what it uses for the steering is the entry at
    [delta_start - 1], the last entry of the epsi block, and for the
    acceleration the entry at [a_start - 1], the last entry of the
    steering block; the previous state comes from the last entries of the
    blocks before ([m] stands for what the read of [vars[2^64 - 1]]
    returned). *)
Theorem evaluator_leaves_layout_at_first_step
    (oob oob_eigen : Z -> option R) (uninit : nat -> nat -> R) (m : R)
    (x y psi v cte epsi : R) (c0 c1 c2 c3 : R) (fg vars : list R) :
  length vars = Z.to_nat n_vars ->
  length fg = Z.to_nat (1 + n_constraints) ->
  oob (SizeT.modulus - 1) = Some m ->
  (n_vars = N * 6 + (N - 1) * 2
   /\ n_constraints = N * 6
   /\ state_starts = [0; N; 2 * N; 3 * N; 4 * N; 5 * N]
   /\ delta_start = 6 * N
   /\ a_start = delta_start + (N - 1)
   /\ a_start + (N - 1) = n_vars)
  /\ (exists p,
        Solve_problem oob oob_eigen uninit [x; y; psi; v; cte; epsi]
                      [c0; c1; c2; c3] = Some p
        /\ Z.of_nat (length (Ipopt.xi p)) = n_vars
        /\ Z.of_nat (length (Ipopt.xl p)) = n_vars
        /\ Z.of_nat (length (Ipopt.xu p)) = n_vars
        /\ Z.of_nat (length (Ipopt.gl p)) = n_constraints
        /\ Z.of_nat (length (Ipopt.gu p)) = n_constraints
        /\ forall i, 0 <= i < n_vars ->
             entry (Ipopt.xl p) i =
               (if i <? delta_start then (-1.0e19)%R
                else if i <? a_start then (-0.436332 * Lf)%R
                else (-1.0)%R))
  /\ (forall t, 1 <= t < N ->
        exists fg',
          FG_eval_body oob oob_eigen [c0; c1; c2; c3] vars t fg = Some fg'
          /\ length fg' = length fg
          /\ (forall j, ~ written t j -> fg' !! j = fg !! j)
          /\ residuals_follow_model [c0; c1; c2; c3] vars fg' t)
  /\ (exists fg',
        FG_eval oob oob_eigen [c0; c1; c2; c3] fg vars = Some fg'
        /\ Z.of_nat (length fg') = 1 + n_constraints
        /\ (forall t, 1 <= t < N ->
              residuals_follow_model [c0; c1; c2; c3] vars fg' t)
        /\ first_residuals m [c0; c1; c2; c3] vars fg'
        /\ decided_actuation vars (-1)
           = {| act_delta := st_epsi (decided_state vars (N - 1));
                act_a := act_delta (decided_actuation vars (N - 2)) |}
        /\ first_previous_state m vars
           = {| st_x := m;
                st_y := st_x (decided_state vars (N - 1));
                st_psi := st_y (decided_state vars (N - 1));
                st_v := st_psi (decided_state vars (N - 1));
                st_cte := st_v (decided_state vars (N - 1));
                st_epsi := st_cte (decided_state vars (N - 1)) |}).
Proof.
  intros Hvars Hfg Hoob.
  destruct (layout_of_assembled_problem oob oob_eigen uninit
              x y psi v cte epsi [c0; c1; c2; c3])
    as (H1 & H2 & H3 & H4 & H5 & H6 & Hp).
  split; [tauto|]. split; [exact Hp|]. split.
  - intros t Ht.
    destruct (FG_eval_body_returns oob oob_eigen c0 c1 c2 c3 vars Hvars t fg)
      as (fg' & Hrun & Hlen & Hframe & Hres); [lia|exact Hfg|left; lia|].
    exists fg'. split; [exact Hrun|]. split; [exact Hlen|].
    split; [exact Hframe|]. apply Hres. lia.
  - destruct (FG_eval_first_step oob oob_eigen m c0 c1 c2 c3 fg vars
                Hvars Hfg Hoob) as (fg' & Hrun & Hfirst).
    destruct (FG_eval_returns oob oob_eigen (ex_intro _ m Hoob)
                c0 c1 c2 c3 fg vars Hvars Hfg)
      as (fg2 & Hrun2 & Hlen2 & _ & Hres2).
    assert (fg2 = fg') as -> by congruence.
    exists fg'. split; [exact Hrun|].
    split; [rewrite Hlen2, Hfg; reflexivity|].
    split; [exact Hres2|]. split; [exact Hfirst|]. split; reflexivity.
Qed.

Lemma evaluator_leaves_layout_at_first_step_witness :
  exists fg',
    FG_eval (unchecked (fun _ => 7%R)) checked [0%R; 0%R; 0%R; 0%R]
            (replicate 61 0%R) (IZR <$> seqZ 0 78) = Some fg'
    /\ first_residuals 7%R [0%R; 0%R; 0%R; 0%R] (IZR <$> seqZ 0 78) fg'
    /\ act_delta (decided_actuation (IZR <$> seqZ 0 78) (-1)) = 59%R
    /\ act_a (decided_actuation (IZR <$> seqZ 0 78) (-1)) = 68%R.
Proof.
  destruct (evaluator_leaves_layout_at_first_step
              (unchecked (fun _ => 7%R)) checked (fun _ _ => 0%R) 7%R
              0%R 0%R 0%R 10%R 0%R 0%R 0%R 0%R 0%R 0%R
              (replicate 61 0%R) (IZR <$> seqZ 0 78))
    as (_ & _ & _ & fg' & Hrun & _ & _ & Hres & _ & _).
  - reflexivity.
  - reflexivity.
  - reflexivity.
  - exists fg'. split; [exact Hrun|]. split; [exact Hres|].
    split; reflexivity.
Defined.

(** ** Bounds (C7, C5) *)

(** C7.  For every state, [Solve] assembles: variable bounds of [-1.0e19]
    and [1.0e19] on every state entry; bounds of exactly [-1] and [1] on
    every acceleration entry; constraint bounds with lower = upper, equal to
    zero everywhere but at the step-0 slot of each of the six state blocks,
    where both equal the corresponding component of the state. *)
Theorem assembled_bounds
    (oob oob_eigen : Z -> option R) (uninit : nat -> nat -> R)
    (x y psi v cte epsi : R) (coeffs : list R) :
  exists p,
    Solve_problem oob oob_eigen uninit [x; y; psi; v; cte; epsi] coeffs = Some p
    /\ (forall i, 0 <= i < delta_start ->
          vread checked (Ipopt.xl p) i = Some (-1.0e19)%R
          /\ vread checked (Ipopt.xu p) i = Some 1.0e19%R)
    /\ (forall i, a_start <= i < n_vars ->
          vread checked (Ipopt.xl p) i = Some (-1)%R
          /\ vread checked (Ipopt.xu p) i = Some 1%R)
    /\ Ipopt.gl p = Ipopt.gu p
    /\ (forall i, 0 <= i < n_constraints -> i ∉ state_starts ->
          vread checked (Ipopt.gl p) i = Some 0%R)
    /\ (forall k s, state_starts !! k = Some s ->
          vread checked (Ipopt.gl p) s = [x; y; psi; v; cte; epsi] !! k).
Proof.
  eexists. split; [apply Solve_problem_eq|].
  cbn [Ipopt.xl Ipopt.xu Ipopt.gl Ipopt.gu]. starts.
  split; [|split; [|split; [reflexivity|split]]].
  - intros i Hi.
    rewrite !vread_inside by (rewrite length_three_blocks; lia).
    rewrite !entry_three_blocks by lia.
    now replace (i <? 60) with true by (symmetry; lia).
  - intros i Hi.
    rewrite !vread_inside by (rewrite length_three_blocks; lia).
    rewrite !entry_three_blocks by lia.
    replace (i <? 60) with false by (symmetry; lia).
    replace (i <? 69) with false by (symmetry; lia).
    split; f_equal; lra.
  - intros i Hi Hnot.
    rewrite vread_inside by (rewrite length_pinned; lia).
    now rewrite entry_pinned_other.
  - intros k s Hk.
    assert (0 <= s < 60) as Hs.
    { do 6 (destruct k as [|k]; [injection Hk as <-; starts; lia|]).
      discriminate. }
    rewrite vread_inside by (rewrite length_pinned; lia).
    now apply entry_pinned_start.
Qed.

Lemma assembled_bounds_witness :
  exists p,
    Solve_problem checked checked (fun _ _ => 0%R)
      [1%R; 2%R; 3%R; 4%R; 5%R; 6%R] [0%R; 0%R; 0%R; 0%R] = Some p
    /\ vread checked (Ipopt.xl p) 35 = Some (-1.0e19)%R
    /\ vread checked (Ipopt.xu p) 70 = Some 1%R
    /\ vread checked (Ipopt.gl p) 17 = Some 0%R
    /\ vread checked (Ipopt.gl p) v_start = Some 4%R.
Proof.
  destruct (assembled_bounds checked checked (fun _ _ => 0%R)
              1%R 2%R 3%R 4%R 5%R 6%R [0%R; 0%R; 0%R; 0%R])
    as (p & Hp & Hstate & Hacc & _ & Hzero & Hpin).
  exists p. split; [exact Hp|]. split; [|split; [|split]].
  - apply (Hstate 35). split; [discriminate|reflexivity].
  - apply (Hacc 70). split; [discriminate|reflexivity].
  - apply (Hzero 17); [split; [discriminate|reflexivity]|].
    clear. unfold state_starts. starts. rewrite !not_elem_of_cons.
    repeat split; try (intros [=]). apply not_elem_of_nil.
  - apply (Hpin 3%nat v_start). reflexivity.
Defined.

(** C5.  The code assembles, for every steering entry, the lower bound
    [-0.436332 * Lf] and the upper bound [0.43632 * Lf]: the two differ in
    magnitude, so the bounds are not symmetric around zero.  Both lie
    within 25 degrees ([0.436332] to six digits) scaled by [Lf]. *)
Theorem steering_bounds_differ_in_magnitude
    (oob oob_eigen : Z -> option R) (uninit : nat -> nat -> R)
    (x y psi v cte epsi : R) (coeffs : list R) (i : Z) :
  delta_start <= i < a_start ->
  exists p,
    Solve_problem oob oob_eigen uninit [x; y; psi; v; cte; epsi] coeffs = Some p
    /\ vread checked (Ipopt.xl p) i = Some (-0.436332 * Lf)%R
    /\ vread checked (Ipopt.xu p) i = Some (0.43632 * Lf)%R
    /\ (entry (Ipopt.xl p) i <> - entry (Ipopt.xu p) i)%R
    /\ (- (0.436332 * Lf) <= entry (Ipopt.xl p) i)%R
    /\ (entry (Ipopt.xu p) i <= 0.436332 * Lf)%R.
Proof.
  intros Hi. starts.
  eexists. split; [apply Solve_problem_eq|]. cbn [Ipopt.xl Ipopt.xu].
  rewrite !vread_inside by (rewrite length_three_blocks; lia).
  rewrite !entry_three_blocks by lia.
  replace (i <? 60) with false by (symmetry; lia).
  replace (i <? 69) with true by (symmetry; lia).
  unfold Lf. repeat split; lra.
Qed.

Lemma steering_bounds_differ_in_magnitude_witness :
  exists p,
    Solve_problem checked checked (fun _ _ => 0%R)
      [0%R; 0%R; 0%R; 10%R; 0%R; 0%R] [0%R; 0%R; 0%R; 0%R] = Some p
    /\ vread checked (Ipopt.xl p) 60 = Some (-0.436332 * Lf)%R
    /\ vread checked (Ipopt.xu p) 60 = Some (0.43632 * Lf)%R
    /\ (entry (Ipopt.xl p) 60 <> - entry (Ipopt.xu p) 60)%R
    /\ (- (0.436332 * Lf) <= entry (Ipopt.xl p) 60)%R
    /\ (entry (Ipopt.xu p) 60 <= 0.436332 * Lf)%R.
Proof.
  apply (steering_bounds_differ_in_magnitude checked checked (fun _ _ => 0%R)
           0%R 0%R 0%R 10%R 0%R 0%R [0%R; 0%R; 0%R; 0%R] 60).
  split; [discriminate|reflexivity].
Defined.

(** ** The evaluator (C6, C1, C3) *)

(** C6.  For every step [t] from 1 to [N - 1], the evaluator stores at
    offset [1 + block_start + t] of [fg], for each of the six state blocks,
    the decided state at [t] minus the state that the bicycle model
    predicts from the decided state and actuation at [t - 1].  Iteration
    [t] does so whatever a read outside [vars] yields, and the whole
    evaluator does so once the read of [vars[2^64 - 1]] in iteration 0
    returns. *)
Theorem residuals_are_model_defects
    (oob oob_eigen : Z -> option R) (c0 c1 c2 c3 : R) (fg vars : list R) (t : Z) :
  length vars = Z.to_nat n_vars ->
  length fg = Z.to_nat (1 + n_constraints) ->
  1 <= t < N ->
  (exists fg',
     FG_eval_body oob oob_eigen [c0; c1; c2; c3] vars t fg = Some fg'
     /\ residuals_follow_model [c0; c1; c2; c3] vars fg' t)
  /\ (is_Some (oob (SizeT.modulus - 1)) ->
      exists fg',
        FG_eval oob oob_eigen [c0; c1; c2; c3] fg vars = Some fg'
        /\ residuals_follow_model [c0; c1; c2; c3] vars fg' t).
Proof.
  intros Hvars Hfg Ht. split.
  - destruct (FG_eval_body_returns oob oob_eigen c0 c1 c2 c3 vars Hvars t fg)
      as (fg' & Hrun & _ & _ & Hres); [lia|assumption|left; lia|].
    exists fg'. split; [exact Hrun|]. apply Hres. lia.
  - intros Hoob.
    destruct (FG_eval_returns oob oob_eigen Hoob c0 c1 c2 c3 fg vars Hvars Hfg)
      as (fg' & Hrun & _ & _ & Hres).
    exists fg'. split; [exact Hrun|]. now apply Hres.
Qed.

Lemma residuals_are_model_defects_witness :
  exists fg',
    FG_eval (unchecked (fun _ => 0%R)) checked [0%R; 0%R; 0%R; 0%R]
            (replicate 61 0%R) (replicate 78 1%R) = Some fg'
    /\ residuals_follow_model [0%R; 0%R; 0%R; 0%R] (replicate 78 1%R) fg' 4.
Proof.
  apply (residuals_are_model_defects (unchecked (fun _ => 0%R)) checked
           0%R 0%R 0%R 0%R (replicate 61 0%R) (replicate 78 1%R) 4).
  - reflexivity.
  - reflexivity.
  - split; [discriminate|reflexivity].
  - exists 0%R. reflexivity.
Defined.

Lemma spec_cost_zero_vector : (spec_cost (replicate 78 0) = 144000)%R.
Proof.
  unfold spec_cost, sumR.
  cbv -[Rplus Rmult Rminus Ropp IZR ref_v pow].
  unfold ref_v. lra.
Qed.

(** C1.  The evaluator sets the cost slot to the constant 0 of line 53 and
    adds nothing to it: on the Decision Vector of zeros the cost that the
    specification describes is 144000 (ten times the squared distance to
    the reference speed) and [fg[0]] is 0. *)
Theorem cost_slot_holds_no_penalty :
  exists fg',
    FG_eval (unchecked (fun _ => 0%R)) checked [0%R; 0%R; 0%R; 0%R]
            (replicate 61 0%R) (replicate 78 0%R) = Some fg'
    /\ fg' !! 0%nat = Some 0%R
    /\ spec_cost (replicate 78 0%R) = 144000%R
    /\ Some (spec_cost (replicate 78 0%R)) <> fg' !! 0%nat.
Proof.
  destruct (FG_eval_returns (unchecked (fun _ => 0%R)) checked
              (ex_intro _ 0%R eq_refl) 0%R 0%R 0%R 0%R
              (replicate 61 0%R) (replicate 78 0%R) eq_refl eq_refl)
    as (fg' & Hrun & _ & Hcost & _).
  exists fg'. split; [exact Hrun|]. split; [exact Hcost|].
  split; [apply spec_cost_zero_vector|].
  rewrite Hcost, spec_cost_zero_vector. intros [=H]. lra.
Qed.

(** C3.  At [t = 0] the index [x_start + t - 1] wraps around to
    [2^64 - 1], far outside [vars]; the other seven indices of the previous
    step are the start of their block minus one, the last entry of the
    block before, not index 0 of their own block.  With the index check
    compiled in, the evaluator therefore never returns on a Decision Vector
    of the specified length. *)
Theorem first_step_reads_before_block_start
    (oob_eigen : Z -> option R) (coeffs fg vars : list R) :
  length vars = Z.to_nat n_vars ->
  x_start +% SizeT.of_int 0 -% 1 = SizeT.modulus - 1
  /\ n_vars <= x_start +% SizeT.of_int 0 -% 1
  /\ Forall (fun s => s +% SizeT.of_int 0 -% 1 = s - 1
                      /\ s +% SizeT.of_int 0 -% 1 <> s)
            [y_start; psi_start; v_start; cte_start; epsi_start;
             delta_start; a_start]
  /\ FG_eval checked oob_eigen coeffs fg vars = None.
Proof.
  intros Hlen. split; [reflexivity|]. split; [discriminate|].
  split; [|now apply FG_eval_checked_stops].
  repeat constructor; discriminate.
Qed.

Lemma first_step_reads_before_block_start_witness :
  FG_eval checked checked [0%R; 0%R; 0%R; 0%R] (replicate 61 0%R) (replicate 78 0%R)
  = None.
Proof.
  apply (first_step_reads_before_block_start checked
           [0%R; 0%R; 0%R; 0%R] (replicate 61 0%R) (replicate 78 0%R)).
  reflexivity.
Defined.

(** ** The first step (C2) *)

Ltac zero_angles :=
  repeat match goal with
         | |- context [atan ?a] =>
             progress (replace a with 0%R by (simpl; lra); rewrite atan_0)
         end.

(** C2.  The six constraint slots that [Solve] pins to the state hold the
    residuals of iteration 0 of the evaluator, not the step-0 entries of
    the blocks.  Let [m] be what the read of [vars[2^64 - 1]] returns.  With
    the state (1 - m, -1, 0, 0, 1, 0) and the path [y = 0], the Decision
    Vector with x = 1 at every step and zero elsewhere satisfies every
    bound of the assembled problem, and its step-0 entries of y and cte
    are 0, not -1 and 1. *)
Theorem feasible_point_off_the_state (m : R) :
  let state := [1 - m; -1; 0; 0; 1; 0]%R in
  let vars := (replicate 10 1 ++ replicate 68 0)%R in
  exists p,
    Solve_problem (unchecked (fun _ => m)) checked (fun _ _ => 0%R) state
                  [0%R; 0%R; 0%R; 0%R] = Some p
    /\ length vars = Z.to_nat n_vars
    /\ feasible p vars
    /\ entry vars y_start <> entry state 1
    /\ entry vars cte_start <> entry state 4.
Proof.
  intros state vars.
  eexists. split; [apply Solve_problem_eq|]. split; [reflexivity|].
  split; [|split; cbv -[IZR Ropp]; lra].
  split.
  - split; cbv -[Rplus Rmult Rminus Ropp Rdiv Rinv IZR Rle];
      repeat constructor; lra.
  - cbn [Ipopt.fg_eval Ipopt.gl Ipopt.gu].
    eexists. split.
    + cbv -[Rplus Rmult Rminus Ropp Rdiv Rinv IZR cos sin atan pow dt Lf].
      reflexivity.
    + split; cbv -[Rplus Rmult Rminus Ropp Rdiv Rinv IZR cos sin atan pow
                   dt Lf Rle];
        repeat (constructor; [zero_angles; lra|]); constructor.
Qed.

(** ** What [Solve] returns (C9, C10, C4) *)

(** C9.  [Solve] starts the solver from the Decision Vector of zeros.  When
    the solver reports success (with a solution vector of [n_vars]
    entries), [Solve] returns the solution's entry at [delta_start], then
    its entry at [a_start], then predicted (x, y) pairs read from the x and
    y blocks of the solution and nothing else: of the actuations only the
    first pair is returned. *)
Theorem Solve_on_success
    (oob oob_eigen : Z -> option R) (uninit : nat -> nat -> R)
    (solve : Ipopt.problem -> Ipopt.solve_result)
    (x y psi v cte epsi : R) (coeffs : list R) :
  exists p,
    Solve_problem oob oob_eigen uninit [x; y; psi; v; cte; epsi] coeffs = Some p
    /\ Ipopt.xi p = replicate (Z.to_nat n_vars) 0%R
    /\ (Ipopt.status (solve p) = Ipopt.success ->
        length (Ipopt.x (solve p)) = Z.to_nat n_vars ->
        let sol := Ipopt.x (solve p) in
        Solve oob oob_eigen uninit solve [x; y; psi; v; cte; epsi] coeffs =
        Some (entry sol delta_start :: entry sol a_start
              :: flat_map (position sol) (seqZ 1 (N - 2)))).
Proof.
  eexists. split; [apply Solve_problem_eq|]. split; [reflexivity|].
  intros _ Hlen sol. unfold Solve. rewrite Solve_problem_eq.
  cbn [mbind option_bind]. now apply Solve_result_eq.
Qed.

Lemma Solve_on_success_witness :
  let solve := fun _ : Ipopt.problem =>
    {| Ipopt.status := Ipopt.success;
       Ipopt.x := IZR <$> seqZ 0 78;
       Ipopt.obj_value := 0%R |} in
  Solve checked checked (fun _ _ => 0%R) solve
        [0%R; 0%R; 0%R; 10%R; 0%R; 0%R] [0%R; 0%R; 0%R; 0%R] =
  Some (entry (IZR <$> seqZ 0 78) delta_start
        :: entry (IZR <$> seqZ 0 78) a_start
        :: flat_map (position (IZR <$> seqZ 0 78)) (seqZ 1 (N - 2))).
Proof.
  intros solve.
  destruct (Solve_on_success checked checked (fun _ _ => 0%R) solve
              0%R 0%R 0%R 10%R 0%R 0%R [0%R; 0%R; 0%R; 0%R])
    as (p & _ & _ & Hret).
  apply Hret; reflexivity.
Defined.

(** C10, as the code has it.  Whatever the solver's status, when the
    solver's vector has more than [a_start] entries (as the [n_vars]
    entries of a Decision Vector are) [Solve] returns 18 values, that is
    [2 + 2 * (N - 2)], all read from that vector: steering, acceleration,
    then x and y of the steps 1 to [N - 2] in turn.  The positions of step
    0 and of step [N - 1] are not among them, and nothing in the result
    depends on the status. *)
Theorem Solve_returns_eighteen_values
    (oob oob_eigen : Z -> option R) (uninit : nat -> nat -> R)
    (solve : Ipopt.problem -> Ipopt.solve_result)
    (x y psi v cte epsi : R) (coeffs : list R) :
  exists p,
    Solve_problem oob oob_eigen uninit [x; y; psi; v; cte; epsi] coeffs
    = Some p
    /\ (a_start < Z.of_nat (length (Ipopt.x (solve p))) ->
        let sol := Ipopt.x (solve p) in
        exists r,
          Solve oob oob_eigen uninit solve [x; y; psi; v; cte; epsi] coeffs
          = Some r
          /\ r = [entry sol 60; entry sol 69;
                  entry sol 1; entry sol 11; entry sol 2; entry sol 12;
                  entry sol 3; entry sol 13; entry sol 4; entry sol 14;
                  entry sol 5; entry sol 15; entry sol 6; entry sol 16;
                  entry sol 7; entry sol 17; entry sol 8; entry sol 18]
          /\ r = entry sol delta_start :: entry sol a_start
                 :: flat_map (position sol) (seqZ 1 (N - 2))
          /\ Z.of_nat (length r) = 2 + 2 * (N - 2)
          /\ forall st obj,
               Solve_result oob {| Ipopt.status := st; Ipopt.x := sol;
                                   Ipopt.obj_value := obj |} = Some r).
Proof.
  eexists. split; [apply Solve_problem_eq|].
  intros Hlen sol. eexists. split; [|split; [|split; [|split]]].
  - unfold Solve. rewrite Solve_problem_eq. cbn [mbind option_bind].
    now apply Solve_result_long.
  - reflexivity.
  - reflexivity.
  - reflexivity.
  - intros st obj. now rewrite Solve_result_long.
Qed.

Lemma Solve_returns_eighteen_values_witness :
  let solve := fun _ : Ipopt.problem =>
    {| Ipopt.status := Ipopt.maxiter_exceeded;
       Ipopt.x := IZR <$> seqZ 0 78;
       Ipopt.obj_value := 0%R |} in
  exists r,
    Solve checked checked (fun _ _ => 0%R) solve
          [0%R; 0%R; 0%R; 10%R; 0%R; 0%R] [0%R; 0%R; 0%R; 0%R] = Some r
    /\ Z.of_nat (length r) = 18.
Proof.
  intros solve.
  destruct (Solve_returns_eighteen_values checked checked (fun _ _ => 0%R)
              solve 0%R 0%R 0%R 10%R 0%R 0%R [0%R; 0%R; 0%R; 0%R])
    as (p & _ & Hret).
  destruct Hret as (r & Hr & _ & _ & Hlen & _); [reflexivity|].
  exists r. split; [exact Hr|exact Hlen].
Defined.

(** C10, as the claim states it, fails.  A solver answer whose vector is
    empty, as [solve_result] is before the solver has filled it in (status
    [not_defined]), is read like any other: with the index check compiled
    in [Solve] stops at its first read and returns no vector, and without
    it (here with every stray read returning 7) the 18 values returned are
    not the solver's. *)
Lemma Solve_on_empty_solver_vector :
  let answer := {| Ipopt.status := Ipopt.not_defined; Ipopt.x := [];
                   Ipopt.obj_value := 0%R |} in
  let run := fun oob =>
    Solve oob checked (fun _ _ => 0%R) (fun _ => answer)
          [0%R; 0%R; 0%R; 10%R; 0%R; 0%R] [0%R; 0%R; 0%R; 0%R] in
  run checked = None
  /\ run (unchecked (fun _ => 7%R)) = Some (replicate 18 7%R)
  /\ Forall (fun r => r ∉ Ipopt.x answer) (replicate 18 7%R).
Proof.
  intros answer run. unfold run, Solve. rewrite !Solve_problem_eq.
  cbn [mbind option_bind].
  split; [reflexivity|]. split; [reflexivity|].
  apply Forall_forall. intros r _. apply not_elem_of_nil.
Qed.

(** C4, as the code has it.  The flag [ok] of line 197 is not read again:
    the result is the same for every status, and its first two values are
    the solver's entries at [delta_start] and [a_start] as they are.  No
    value is validated and none is replaced. *)
Theorem Solve_result_passes_through
    (oob : Z -> option R) (st : Ipopt.status_type) (obj : R) (sol : list R) :
  length sol = Z.to_nat n_vars ->
  let answer := fun s => {| Ipopt.status := s; Ipopt.x := sol;
                            Ipopt.obj_value := obj |} in
  Solve_result oob (answer st) = Solve_result oob (answer Ipopt.success)
  /\ exists rest,
       Solve_result oob (answer st)
       = Some (entry sol delta_start :: entry sol a_start :: rest).
Proof.
  intros Hlen answer. rewrite !Solve_result_eq by exact Hlen.
  split; [reflexivity|]. eexists. reflexivity.
Qed.

Lemma Solve_result_passes_through_witness :
  exists rest,
    Solve_result checked
      {| Ipopt.status := Ipopt.local_infeasibility;
         Ipopt.x := IZR <$> seqZ 0 78; Ipopt.obj_value := 0%R |}
    = Some (entry (IZR <$> seqZ 0 78) delta_start
            :: entry (IZR <$> seqZ 0 78) a_start :: rest).
Proof.
  apply (Solve_result_passes_through checked Ipopt.local_infeasibility 0%R
           (IZR <$> seqZ 0 78)).
  reflexivity.
Defined.

(** C4, as the claim states it, fails: a solver answer with the status
    [invalid_number_detected] and the value 100 in every entry is returned
    exactly as the same answer with the status [success] is, and the
    steering and the acceleration returned are 100, beyond their upper
    bounds [0.43632 * Lf] and [1]. *)
Lemma failed_solve_returned_as_success :
  let answer := fun s => {| Ipopt.status := s; Ipopt.x := replicate 78 100%R;
                            Ipopt.obj_value := 0%R |} in
  let run := fun s =>
    Solve checked checked (fun _ _ => 0%R) (fun _ => answer s)
          [0%R; 0%R; 0%R; 10%R; 0%R; 0%R] [0%R; 0%R; 0%R; 0%R] in
  Ipopt.invalid_number_detected <> Ipopt.success
  /\ run Ipopt.invalid_number_detected = run Ipopt.success
  /\ (exists rest,
        run Ipopt.invalid_number_detected = Some (100%R :: 100%R :: rest))
  /\ (0.43632 * Lf < 100)%R
  /\ (1 < 100)%R.
Proof.
  intros answer run. split; [discriminate|].
  assert (Hrun : forall s,
    run s = Some (entry (replicate 78 100%R) delta_start
                  :: entry (replicate 78 100%R) a_start
                  :: flat_map (position (replicate 78 100%R))
                       (seqZ 1 (N - 2)))).
  { intros s. unfold run, Solve. rewrite Solve_problem_eq.
    cbn [mbind option_bind]. now apply Solve_result_eq. }
  split; [now rewrite !Hrun|]. split.
  - eexists. rewrite Hrun. reflexivity.
  - unfold Lf. split; lra.
Qed.

(** * Further properties of the code *)

(** ** The evaluator *)

(** X1.  The cost slot is 0 for every Decision Vector, every polynomial and
    every previous content of [fg]: once the read of iteration 0 returns,
    the evaluator returns a vector of the length it was given whose first
    entry is 0. *)
Theorem cost_slot_is_zero_everywhere
    (oob oob_eigen : Z -> option R) (c0 c1 c2 c3 : R) (fg vars : list R) :
  length vars = Z.to_nat n_vars ->
  length fg = Z.to_nat (1 + n_constraints) ->
  is_Some (oob (SizeT.modulus - 1)) ->
  exists fg',
    FG_eval oob oob_eigen [c0; c1; c2; c3] fg vars = Some fg'
    /\ length fg' = length fg
    /\ vread checked fg' 0 = Some 0%R.
Proof.
  intros Hvars Hfg Hoob.
  destruct (FG_eval_returns oob oob_eigen Hoob c0 c1 c2 c3 fg vars Hvars Hfg)
    as (fg' & Hrun & Hlen & Hcost & _).
  exists fg'. split; [exact Hrun|]. split; [exact Hlen|].
  rewrite vread_inside by (rewrite Hlen, Hfg; starts; lia).
  f_equal. unfold entry. now apply nth_lookup_Some.
Qed.

Lemma cost_slot_is_zero_everywhere_witness :
  exists fg',
    FG_eval (unchecked (fun _ => 7%R)) checked [1%R; 2%R; 3%R; 4%R]
            (replicate 61 5%R) (IZR <$> seqZ 0 78) = Some fg'
    /\ length fg' = length (replicate 61 5%R)
    /\ vread checked fg' 0 = Some 0%R.
Proof.
  apply (cost_slot_is_zero_everywhere (unchecked (fun _ => 7%R)) checked
           1%R 2%R 3%R 4%R (replicate 61 5%R) (IZR <$> seqZ 0 78)).
  - reflexivity.
  - reflexivity.
  - exists 7%R. reflexivity.
Defined.

(** X2.  At a step [t] from 1 to [N - 1] the six residuals are all zero
    exactly when the decided state at [t] is the state that the model
    predicts from the decided state and actuation at [t - 1]. *)
Theorem residuals_vanish_iff_rollout
    (oob oob_eigen : Z -> option R) (c0 c1 c2 c3 : R) (fg vars : list R) (t : Z) :
  length vars = Z.to_nat n_vars ->
  length fg = Z.to_nat (1 + n_constraints) ->
  is_Some (oob (SizeT.modulus - 1)) ->
  1 <= t < N ->
  exists fg',
    FG_eval oob oob_eigen [c0; c1; c2; c3] fg vars = Some fg'
    /\ (Forall (fun s => residual fg' s t = Some 0%R) state_starts
        <-> decided_state vars t
            = kinematic_model [c0; c1; c2; c3] (decided_state vars (t - 1))
                              (decided_actuation vars (t - 1))).
Proof.
  intros Hvars Hfg Hoob Ht.
  destruct (FG_eval_returns oob oob_eigen Hoob c0 c1 c2 c3 fg vars Hvars Hfg)
    as (fg' & Hrun & _ & _ & Hres).
  exists fg'. split; [exact Hrun|].
  destruct (Hres t Ht) as (Hx & Hy & Hpsi & Hv & Hcte & Hepsi).
  unfold state_starts. rewrite !Forall_cons, Forall_nil.
  rewrite Hx, Hy, Hpsi, Hv, Hcte, Hepsi.
  unfold decided_state, kinematic_model. cbn [st_x st_y st_psi st_v st_cte
    st_epsi act_delta act_a].
  split.
  - intros ([= H1] & [= H2] & [= H3] & [= H4] & [= H5] & [= H6] & _).
    f_equal; now apply Rminus_diag_uniq.
  - intros [= H1 H2 H3 H4 H5 H6].
    repeat split; f_equal; now apply Rminus_diag_eq.
Qed.

Lemma residuals_vanish_iff_rollout_witness :
  exists fg',
    FG_eval (unchecked (fun _ => 0%R)) checked [0%R; 0%R; 0%R; 0%R]
            (replicate 61 0%R) (replicate 78 0%R) = Some fg'
    /\ (Forall (fun s => residual fg' s 3 = Some 0%R) state_starts
        <-> decided_state (replicate 78 0%R) 3
            = kinematic_model [0%R; 0%R; 0%R; 0%R]
                (decided_state (replicate 78 0%R) (3 - 1))
                (decided_actuation (replicate 78 0%R) (3 - 1))).
Proof.
  apply (residuals_vanish_iff_rollout (unchecked (fun _ => 0%R)) checked
           0%R 0%R 0%R 0%R (replicate 61 0%R) (replicate 78 0%R) 3).
  - reflexivity.
  - reflexivity.
  - exists 0%R. reflexivity.
  - split; [discriminate|reflexivity].
Defined.

(** X3.  The six slots of step 0, the ones that [Solve] pins to the state,
    hold a dynamics residual like the others, taken against a previous
    state that the Decision Vector does not contain: its x is whatever the
    read of [vars[2^64 - 1]] returned, and its y, psi, v, cte, epsi, delta
    and a are the entries one place before the blocks, that is the step
    [N - 1] of x, y, psi, v, cte, epsi and the step [N - 2] of delta. *)
Theorem first_step_slots_hold_aliased_residuals
    (oob oob_eigen : Z -> option R) (m : R) (c0 c1 c2 c3 : R) (fg vars : list R) :
  length vars = Z.to_nat n_vars ->
  length fg = Z.to_nat (1 + n_constraints) ->
  oob (SizeT.modulus - 1) = Some m ->
  exists fg',
    FG_eval oob oob_eigen [c0; c1; c2; c3] fg vars = Some fg'
    /\ first_residuals m [c0; c1; c2; c3] vars fg'
    /\ first_previous_state m vars
       = {| st_x := m;
            st_y := st_x (decided_state vars (N - 1));
            st_psi := st_y (decided_state vars (N - 1));
            st_v := st_psi (decided_state vars (N - 1));
            st_cte := st_v (decided_state vars (N - 1));
            st_epsi := st_cte (decided_state vars (N - 1)) |}
    /\ decided_actuation vars (-1)
       = {| act_delta := st_epsi (decided_state vars (N - 1));
            act_a := act_delta (decided_actuation vars (N - 2)) |}.
Proof.
  intros Hvars Hfg Hoob.
  destruct (FG_eval_first_step oob oob_eigen m c0 c1 c2 c3 fg vars
              Hvars Hfg Hoob) as (fg' & Hrun & Hfirst).
  exists fg'. split; [exact Hrun|]. split; [exact Hfirst|].
  split; reflexivity.
Qed.

Lemma first_step_slots_hold_aliased_residuals_witness :
  exists fg',
    FG_eval (unchecked (fun _ => 7%R)) checked [0%R; 0%R; 0%R; 0%R]
            (replicate 61 0%R) (IZR <$> seqZ 0 78) = Some fg'
    /\ first_residuals 7%R [0%R; 0%R; 0%R; 0%R] (IZR <$> seqZ 0 78) fg'.
Proof.
  destruct (first_step_slots_hold_aliased_residuals
              (unchecked (fun _ => 7%R)) checked 7%R 0%R 0%R 0%R 0%R
              (replicate 61 0%R) (IZR <$> seqZ 0 78))
    as (fg' & Hrun & Hres & _).
  - reflexivity.
  - reflexivity.
  - reflexivity.
  - exists fg'. split; [exact Hrun|exact Hres].
Defined.

(** ** Two runs of the evaluator side by side *)

Lemma for_each_seqZ_lockstep {S : Type} (Rel : Z -> S -> S -> Prop)
    (body : Z -> S -> option S) (n : nat) : forall (lo : Z) (s1 s2 : S),
  Rel lo s1 s2 ->
  (forall t a b, lo <= t < lo + Z.of_nat n -> Rel t a b ->
                 opt_rel (Rel (t + 1)) (body t a) (body t b)) ->
  opt_rel (Rel (lo + Z.of_nat n))
          (for_each (seqZ lo (Z.of_nat n)) body s1)
          (for_each (seqZ lo (Z.of_nat n)) body s2).
Proof.
  induction n as [|n IH]; intros lo s1 s2 Hrel Hbody.
  - rewrite seqZ_nil by lia. cbn.
    now replace (lo + Z.of_nat 0) with lo by lia.
  - rewrite seqZ_cons by lia. cbn [for_each].
    replace (Z.pred (Z.of_nat (Datatypes.S n))) with (Z.of_nat n) by lia.
    replace (lo + Z.of_nat (Datatypes.S n))
      with (Z.succ lo + Z.of_nat n) by lia.
    specialize (Hbody lo s1 s2 ltac:(lia) Hrel) as Hstep.
    destruct (body lo s1) as [a|], (body lo s2) as [b|];
      cbn in Hstep |- *; try contradiction; [|exact I].
    apply IH.
    + now replace (Z.succ lo) with (lo + 1) by lia.
    + intros t a' b' Ht. apply Hbody. lia.
Qed.

Lemma length_foldr_insert (ws : list (nat * R)) (a : list R) :
  length (foldr (fun w l => <[w.1 := w.2]> l) a ws) = length a.
Proof.
  induction ws as [|w ws IH]; [reflexivity|].
  cbn [foldr]. now rewrite length_insert.
Qed.

(** Vectors that agree on the slots in [P] agree, after the same writes,
    on [P] and on the slots written. *)
Lemma inserts_agree (ws : list (nat * R)) (a b : list R) (P : nat -> Prop) :
  length a = length b ->
  Forall (fun w => (w.1 < length a)%nat) ws ->
  (forall j, P j -> a !! j = b !! j) ->
  forall j, P j \/ j ∈ ws.*1 ->
    foldr (fun w l => <[w.1 := w.2]> l) a ws !! j
    = foldr (fun w l => <[w.1 := w.2]> l) b ws !! j.
Proof.
  intros Hlen Hws Hagree j. induction Hws as [|[i r] ws Hi Hws IH].
  - intros [Hj|Hj]; [now apply Hagree|]. now apply elem_of_nil in Hj.
  - cbn [foldr fmap list_fmap fst snd]. intros Hj.
    destruct (decide (j = i)) as [->|Hne].
    + rewrite !list_lookup_insert_eq; [reflexivity|..];
        rewrite length_foldr_insert; cbn in Hi; lia.
    + rewrite !list_lookup_insert_ne by congruence.
      apply IH. destruct Hj as [Hj|Hj]; [now left|right].
      apply elem_of_cons in Hj as [Hj|Hj]; [contradiction|assumption].
Qed.

Lemma FG_eval_body_lockstep
    (oob oob_eigen : Z -> option R) (coeffs vars : list R) (t : Z) (a b : list R) :
  0 <= t < N -> agree_upto t a b ->
  opt_rel (agree_upto (t + 1))
          (FG_eval_body oob oob_eigen coeffs vars t a) (FG_eval_body oob oob_eigen coeffs vars t b).
Proof.
  intros Ht (Ha & Hb & Hagree). unfold FG_eval_body. cbv zeta.
  rewrite !idx_res by (starts; lia).
  repeat match goal with
         | |- opt_rel _ (vread ?o ?v ?i ≫= _) _ =>
             destruct (vread o v i) as [?|];
             cbn [mbind option_bind opt_rel]; [|exact I]
         end.
  repeat (rewrite vwrite_inside
            by (rewrite ?length_insert, ?Ha, ?Hb; starts; lia);
          cbn [mbind option_bind opt_rel]).
  split; [now rewrite !length_insert|]. split; [now rewrite !length_insert|].
  intros j Hj.
  match goal with
  | |- <[?i6 := ?r6]> (<[?i5 := ?r5]> (<[?i4 := ?r4]> (<[?i3 := ?r3]>
         (<[?i2 := ?r2]> (<[?i1 := ?r1]> _))))) !! _ = _ =>
      apply (inserts_agree
               [(i6, r6); (i5, r5); (i4, r4); (i3, r3); (i2, r2); (i1, r1)]
               a b
               (fun j => j = 0%nat \/ (1 <= Z.of_nat j <= n_constraints
                                       /\ (Z.of_nat j - 1) mod N < t)))
  end.
  - congruence.
  - rewrite Ha, !Forall_cons, Forall_nil. cbn [fst]. starts. lia.
  - exact Hagree.
  - cbn [fmap list_fmap fst]. rewrite !elem_of_cons, elem_of_nil.
    starts. Z.div_mod_to_equations. lia.
Qed.

Lemma FG_eval_lockstep
    (oob oob_eigen : Z -> option R) (coeffs vars fg1 fg2 : list R) :
  length fg1 = Z.to_nat (1 + n_constraints) ->
  length fg2 = Z.to_nat (1 + n_constraints) ->
  opt_rel (fun a b => length a = Z.to_nat (1 + n_constraints) /\ a = b)
          (FG_eval oob oob_eigen coeffs fg1 vars) (FG_eval oob oob_eigen coeffs fg2 vars).
Proof.
  intros H1 H2. unfold FG_eval.
  rewrite !vwrite_inside by (rewrite ?H1, ?H2; starts; lia).
  cbn [mbind option_bind]. unfold for_range.
  assert (Hinit : agree_upto 0 (<[Z.to_nat 0 := 0%R]> fg1)
                             (<[Z.to_nat 0 := 0%R]> fg2)).
  { split; [now rewrite length_insert|]. split; [now rewrite length_insert|].
    intros j [->|[_ Hj]].
    - rewrite !list_lookup_insert_eq by (rewrite ?H1, ?H2; starts; lia).
      reflexivity.
    - starts. Z.div_mod_to_equations. lia. }
  pose proof (for_each_seqZ_lockstep agree_upto
                (FG_eval_body oob oob_eigen coeffs vars) (Z.to_nat N) 0 _ _ Hinit)
    as Hloop.
  change (Z.of_nat (Z.to_nat N)) with (N - 0) in Hloop.
  assert (Hend : opt_rel (agree_upto (0 + (N - 0)))
            (for_each (seqZ 0 (N - 0)) (FG_eval_body oob oob_eigen coeffs vars)
               (<[Z.to_nat 0 := 0%R]> fg1))
            (for_each (seqZ 0 (N - 0)) (FG_eval_body oob oob_eigen coeffs vars)
               (<[Z.to_nat 0 := 0%R]> fg2))).
  { apply Hloop. intros t a b Ht. apply FG_eval_body_lockstep.
    starts. lia. }
  clear Hloop.
  destruct (for_each _ _ (<[Z.to_nat 0 := 0%R]> fg1)) as [a|],
           (for_each _ _ (<[Z.to_nat 0 := 0%R]> fg2)) as [b|];
    cbn in Hend |- *; try contradiction; [|exact I].
  destruct Hend as (Ha & Hb & Hagree).
  split; [exact Ha|]. apply list_eq. intros j.
  destruct (decide (j < 61)%nat) as [Hlt|Hge].
  - apply Hagree. starts. Z.div_mod_to_equations. lia.
  - rewrite !lookup_ge_None_2; [reflexivity|..];
      rewrite ?Ha, ?Hb; starts; lia.
Qed.

(** X4.  The evaluator assigns every entry of [fg]: its result is the same
    whatever [fg] held before the call (two vectors of [1 + n_constraints]
    entries give the same outcome, returned or not), so evaluating again on
    its own result changes nothing. *)
Theorem evaluator_overwrites_fg
    (oob oob_eigen : Z -> option R) (coeffs vars fg1 fg2 : list R) :
  length fg1 = Z.to_nat (1 + n_constraints) ->
  length fg2 = Z.to_nat (1 + n_constraints) ->
  FG_eval oob oob_eigen coeffs fg1 vars = FG_eval oob oob_eigen coeffs fg2 vars
  /\ forall fg', FG_eval oob oob_eigen coeffs fg1 vars = Some fg' ->
                 FG_eval oob oob_eigen coeffs fg' vars = Some fg'.
Proof.
  intros H1 H2. split.
  - pose proof (FG_eval_lockstep oob oob_eigen coeffs vars fg1 fg2 H1 H2) as H.
    destruct (FG_eval oob oob_eigen coeffs fg1 vars), (FG_eval oob oob_eigen coeffs fg2 vars);
      cbn in H; try contradiction; [|reflexivity].
    destruct H as [_ ->]. reflexivity.
  - intros fg' Hrun.
    pose proof (FG_eval_lockstep oob oob_eigen coeffs vars fg1 fg1 H1 H1) as Hself.
    rewrite Hrun in Hself. cbn in Hself. destruct Hself as [Hlen _].
    pose proof (FG_eval_lockstep oob oob_eigen coeffs vars fg1 fg' H1 Hlen) as H.
    rewrite Hrun in H.
    destruct (FG_eval oob oob_eigen coeffs fg' vars); cbn in H; [|contradiction].
    destruct H as [_ ->]. reflexivity.
Qed.

Lemma evaluator_overwrites_fg_witness :
  FG_eval (unchecked (fun _ => 0%R)) checked [1%R; 2%R; 3%R; 4%R]
          (replicate 61 5%R) (IZR <$> seqZ 0 78)
  = FG_eval (unchecked (fun _ => 0%R)) checked [1%R; 2%R; 3%R; 4%R]
            (IZR <$> seqZ 0 61) (IZR <$> seqZ 0 78).
Proof.
  apply (evaluator_overwrites_fg (unchecked (fun _ => 0%R)) checked
           [1%R; 2%R; 3%R; 4%R] (IZR <$> seqZ 0 78)
           (replicate 61 5%R) (IZR <$> seqZ 0 61)).
  - reflexivity.
  - reflexivity.
Defined.

(** ** The coefficients *)

Lemma for_each_ext {S : Type} (f g : Z -> S -> option S) (ts : list Z) :
  (forall t s, f t s = g t s) ->
  forall s, for_each ts f s = for_each ts g s.
Proof.
  intros Hfg. induction ts as [|t ts IH]; intros s; [reflexivity|].
  cbn [for_each]. rewrite Hfg. destruct (g t s); cbn; [apply IH|reflexivity].
Qed.

Lemma vread_first_four
    (oe : Z -> option R) (c0 c1 c2 c3 : R) (rest : list R) :
  vread oe (c0 :: c1 :: c2 :: c3 :: rest) 0 = Some c0
  /\ vread oe (c0 :: c1 :: c2 :: c3 :: rest) 1 = Some c1
  /\ vread oe (c0 :: c1 :: c2 :: c3 :: rest) 2 = Some c2
  /\ vread oe (c0 :: c1 :: c2 :: c3 :: rest) 3 = Some c3.
Proof.
  repeat split; rewrite vread_inside by (cbn [length]; lia); reflexivity.
Qed.

(** X6.  The evaluator reads no coefficient beyond the fourth: a polynomial
    of higher degree is evaluated as its part of degree 3. *)
Theorem evaluator_truncates_polynomial
    (oob oob_eigen : Z -> option R) (c0 c1 c2 c3 : R) (rest fg vars : list R) :
  FG_eval oob oob_eigen (c0 :: c1 :: c2 :: c3 :: rest) fg vars
  = FG_eval oob oob_eigen [c0; c1; c2; c3] fg vars.
Proof.
  assert (Hbody : forall t s,
    FG_eval_body oob oob_eigen (c0 :: c1 :: c2 :: c3 :: rest) vars t s
    = FG_eval_body oob oob_eigen [c0; c1; c2; c3] vars t s); [|
    unfold FG_eval, for_range;
    generalize (vwrite fg 0 0%R); intros [fg0|]; cbn [mbind option_bind];
    [now apply for_each_ext|reflexivity]].
  intros t s. unfold FG_eval_body. cbv zeta.
  destruct (vread_first_four oob_eigen c0 c1 c2 c3 rest)
    as (-> & -> & -> & ->).
  destruct (vread_first_four oob_eigen c0 c1 c2 c3 [])
    as (-> & -> & -> & ->).
  reflexivity.
Qed.

(** ** The state and the solver's answer *)

(** X7.  With Eigen's index check compiled in, [Solve] on a state of fewer
    than six entries does not return, and the solver is not called: the
    reads of [state[0]] to [state[5]] come before anything else. *)
Theorem Solve_needs_six_state_entries
    (oob : Z -> option R) (uninit : nat -> nat -> R)
    (solve : Ipopt.problem -> Ipopt.solve_result) (state coeffs : list R) :
  (length state < 6)%nat ->
  Solve_problem oob checked uninit state coeffs = None
  /\ Solve oob checked uninit solve state coeffs = None.
Proof.
  intros Hlen.
  assert (Hp : Solve_problem oob checked uninit state coeffs = None).
  { unfold Solve_problem.
    rewrite (vread_outside checked state 5) by lia.
    change (checked 5) with (@None R).
    repeat match goal with
           | |- (vread ?o ?v ?i ≫= _) = None =>
               destruct (vread o v i); cbn [mbind option_bind]
           end; reflexivity. }
  split; [exact Hp|]. unfold Solve. rewrite Hp. reflexivity.
Qed.

Lemma Solve_needs_six_state_entries_witness :
  Solve (unchecked (fun _ => 0%R)) checked (fun _ _ => 0%R)
        (fun _ => {| Ipopt.status := Ipopt.success;
                     Ipopt.x := replicate 78 0%R;
                     Ipopt.obj_value := 0%R |})
        [1%R; 2%R; 3%R; 4%R; 5%R] [0%R; 0%R; 0%R; 0%R] = None.
Proof.
  apply (Solve_needs_six_state_entries (unchecked (fun _ => 0%R))
           (fun _ _ => 0%R)
           (fun _ => {| Ipopt.status := Ipopt.success;
                        Ipopt.x := replicate 78 0%R;
                        Ipopt.obj_value := 0%R |})
           [1%R; 2%R; 3%R; 4%R; 5%R] [0%R; 0%R; 0%R; 0%R]).
  cbn [length]. lia.
Defined.

Lemma vread_first_six
    (oe : Z -> option R) (x y psi v cte epsi : R) (rest : list R) :
  vread oe (x :: y :: psi :: v :: cte :: epsi :: rest) 0 = Some x
  /\ vread oe (x :: y :: psi :: v :: cte :: epsi :: rest) 1 = Some y
  /\ vread oe (x :: y :: psi :: v :: cte :: epsi :: rest) 2 = Some psi
  /\ vread oe (x :: y :: psi :: v :: cte :: epsi :: rest) 3 = Some v
  /\ vread oe (x :: y :: psi :: v :: cte :: epsi :: rest) 4 = Some cte
  /\ vread oe (x :: y :: psi :: v :: cte :: epsi :: rest) 5 = Some epsi.
Proof.
  repeat split; rewrite vread_inside by (cbn [length]; lia); reflexivity.
Qed.

(** X8.  What [Solve] hands to the solver depends on the first six entries
    of the state only, and not on what its five vectors held when they were
    allocated: every entry of each is assigned before the call. *)
Theorem assembled_problem_reads_six_entries
    (oob oob_eigen : Z -> option R) (uninit uninit' : nat -> nat -> R)
    (x y psi v cte epsi : R) (rest coeffs : list R) :
  Solve_problem oob oob_eigen uninit (x :: y :: psi :: v :: cte :: epsi :: rest) coeffs
  = Solve_problem oob oob_eigen uninit' [x; y; psi; v; cte; epsi] coeffs.
Proof.
  transitivity (Solve_problem oob oob_eigen uninit [x; y; psi; v; cte; epsi] coeffs);
    [|rewrite !Solve_problem_eq; reflexivity].
  unfold Solve_problem.
  destruct (vread_first_six oob_eigen x y psi v cte epsi rest)
    as (-> & -> & -> & -> & -> & ->).
  destruct (vread_first_six oob_eigen x y psi v cte epsi [])
    as (-> & -> & -> & -> & -> & ->).
  reflexivity.
Qed.

(** X9.  For every state the initial guess lies within the variable bounds
    that [Solve] assembles, entry by entry, and no lower constraint bound
    exceeds its upper bound: the problem handed to the solver is never
    contradictory in its bounds alone. *)
Theorem cold_start_within_variable_bounds
    (oob oob_eigen : Z -> option R) (uninit : nat -> nat -> R)
    (x y psi v cte epsi : R) (coeffs : list R) :
  exists p,
    Solve_problem oob oob_eigen uninit [x; y; psi; v; cte; epsi] coeffs = Some p
    /\ between (Ipopt.xl p) (Ipopt.xi p) (Ipopt.xu p)
    /\ Forall2 Rle (Ipopt.gl p) (Ipopt.gu p).
Proof.
  eexists. split; [apply Solve_problem_eq|].
  cbn [Ipopt.xl Ipopt.xi Ipopt.xu Ipopt.gl Ipopt.gu].
  split; [split|];
    cbv -[Rplus Rmult Rminus Ropp Rdiv Rinv IZR Rle];
    repeat (constructor; [lra|]); constructor.
Qed.

(** X10.  [Solve] reads the solver's vector without looking at its length.
    With the index check compiled in, it returns exactly when that vector
    has more than [a_start] entries, [a_start] being the largest index it
    reads; an empty vector, as a solver that stopped early leaves it, makes
    [Solve] stop at its first read. *)
Theorem Solve_result_returns_iff_long_enough
    (solution : Ipopt.solve_result) :
  (is_Some (Solve_result checked solution)
   <-> a_start < Z.of_nat (length (Ipopt.x solution)))
  /\ (Ipopt.x solution = [] -> Solve_result checked solution = None).
Proof.
  assert (Hshort :
    Z.of_nat (length (Ipopt.x solution)) <= a_start ->
    Solve_result checked solution = None).
  { intros Hlen. unfold Solve_result. cbv zeta.
    rewrite (vread_outside checked (Ipopt.x solution) a_start) by lia.
    change (checked a_start) with (@None R).
    destruct (vread checked (Ipopt.x solution) delta_start);
      cbn [mbind option_bind]; reflexivity. }
  split; [split|].
  - intros [r Hr].
    destruct (Z.lt_ge_cases a_start (Z.of_nat (length (Ipopt.x solution))))
      as [Hlt|Hge]; [exact Hlt|].
    rewrite Hshort in Hr by exact Hge. discriminate Hr.
  - intros Hlt. rewrite Solve_result_long by exact Hlt. now eexists.
  - intros Hnil. apply Hshort. rewrite Hnil. discriminate.
Qed.

Lemma Solve_result_returns_iff_long_enough_witness :
  Solve_result checked {| Ipopt.status := Ipopt.not_defined;
                          Ipopt.x := []; Ipopt.obj_value := 0%R |} = None.
Proof.
  apply (Solve_result_returns_iff_long_enough
           {| Ipopt.status := Ipopt.not_defined;
              Ipopt.x := []; Ipopt.obj_value := 0%R |}).
  reflexivity.
Defined.
